(** * The window service client of tauri-plugin-windows

    A shallow embedding of [webview-src/index.ts] (the class [Windows] and
    the frozen singleton [WindowsService]) together with the part of the
    JavaScript object model the module relies on: heap-allocated objects
    with identity, own properties with attributes, prototype links,
    extensibility, promises, object literals, [Object.freeze], method
    lookup and property assignment, with the accessor [__proto__] of the
    object prototype and the length of arrays.

    The remote-invocation primitive of [@tauri-apps/api/tauri] is not part
    of the repository: it is a parameter of the development.  Every call
    that goes through it is recorded in a log, which is how the theorems
    speak about "the remote calls an operation issues". *)

From Stdlib Require Import ZArith NArith Ascii String List.
From Stdlib Require Import Floats.SpecFloat.
From stdpp Require Import base option gmap strings list pretty.

Local Open Scope string_scope.
Local Open Scope list_scope.

(** ** Values *)

(** Heap addresses of objects.  Two references denote the same object
    exactly when they hold the same address. *)
Abbreviation loc := positive.

Global Instance spec_float_eq_dec : EqDecision spec_float.
Proof. solve_decision. Defined.

(** JavaScript values.  Numbers are IEEE-754 doubles, given by their
    specification-level representation; the client never computes on them. *)
Inductive JsValue : Type :=
| JUndefined
| JNull
| JBoolean (b : bool)
| JNumber (x : spec_float)
| JString (s : string)
| JObject (l : loc).

Global Instance JsValue_eq_dec : EqDecision JsValue.
Proof. solve_decision. Defined.

(** The double that an integer denotes. *)
Definition number_of_Z (z : Z) : spec_float := binary_normalize 53 1024 z 0 false.

Definition is_string (v : JsValue) : bool :=
  match v with JString _ => true | _ => false end.

(** ** The data-transfer types of [windows.d.ts] *)

Inductive OpenContext : Type := Cli | Dock | Menu | Dialog | Desktop.

Definition OpenContext_code (c : OpenContext) : Z :=
  match c with
  | Cli => 0 | Dock => 1 | Menu => 2 | Dialog => 3 | Desktop => 4
  end%Z.

Inductive Theme : Type := Light | Dark.

Definition Theme_code (t : Theme) : Z :=
  match t with Light => 0 | Dark => 1 end%Z.

(** [T | null | undefined] *)
Inductive Nullable (T : Type) : Type :=
| Present (x : T)
| IsNull
| IsUndefined.
Arguments Present {T} x.
Arguments IsNull {T}.
Arguments IsUndefined {T}.

Record WindowOpenable : Type := {
  folder_uri : Nullable string;
  file_uri : Nullable string
}.

Record OpenConfiguration : Type := {
  label : Nullable string;
  url : Nullable string;
  uris_to_open : Nullable (list WindowOpenable);
  context_window_label : Nullable string;
  context : OpenContext;
  force_new_window : bool;
  force_new_tabbed_window : bool;
  force_reuse_window : bool;
  force_empty_window : bool;
  prefer_new_window : bool;
  initial_startup : bool;
  diff_mode : bool
}.

Record WindowSize : Type := {
  width : spec_float;
  height : spec_float
}.

Record WindowPosition : Type := {
  x : spec_float;
  y : spec_float
}.

Record EmptyWindowBackupInfo : Type := {
  backup_folder : string
}.

Record FilesToOpen : Type := {
  files_to_open_or_create : list string;
  files_to_diff : list string;
  files_to_wait : list string
}.

Record TauriWindowOptions : Type := {
  window_label : Nullable string;
  window_url : Nullable string;
  always_on_top : Nullable bool;
  center : bool;
  decorations : Nullable bool;
  focus : bool;
  fullscreen : Nullable bool;
  inner_size : Nullable WindowSize;
  max_inner_size : Nullable WindowSize;
  maximized : Nullable bool;
  min_inner_size : Nullable WindowSize;
  position : Nullable WindowPosition;
  resizable : Nullable bool;
  skip_taskbar : Nullable bool;
  theme : Nullable Theme;
  title : Nullable string;
  transparent : Nullable bool;
  visible : Nullable bool
}.

(** [WindowOptions extends TauriWindowOptions] *)
Record WindowOptions : Type := {
  tauri_options : TauriWindowOptions;
  options_initial_startup : bool;
  options_force_new_window : bool;
  options_force_new_tabbed_window : bool;
  options_force_reuse_window : bool;
  options_force_empty_window : bool;
  empty_window_backup_info : Nullable EmptyWindowBackupInfo;
  files_to_open : FilesToOpen;
  window_to_use : Nullable string;
  folder : Nullable string
}.

(** ** Objects *)

(** A data property with its attributes. *)
Record Property : Type := mkProperty {
  prop_value : JsValue;
  prop_writable : bool;
  prop_enumerable : bool;
  prop_configurable : bool
}.

Global Instance Property_eq_dec : EqDecision Property.
Proof. solve_decision. Defined.

Inductive PromiseState : Type :=
| Pending
| Fulfilled (value : JsValue)
| Rejected (reason : JsValue).

(** The function bodies the module defines: the constructor and the seven
    methods of the class [Windows]. *)
Inductive Code : Type :=
| Windows_constructor
| Windows_open_window
| Windows_open_empty_window
| Windows_open_existing_window
| Windows_send_to_focused
| Windows_send_to_all
| Windows_get_focused_window
| Windows_get_last_active_window.

Global Instance Code_eq_dec : EqDecision Code.
Proof. solve_decision. Defined.

(** The accessor property [__proto__] that the language gives the
    realm's object prototype: absent once deleted or redefined as a data
    property, or present with its two attributes (initially not enumerable
    and configurable).  Its getter and setter are built in. *)
Inductive ProtoAccessor : Type :=
| NoAccessor
| Accessor (enumerable configurable : bool).

(** Internal slots that tell the kinds of object apart.  The realm's
    object prototype is an object of its own kind: its prototype cannot be
    changed, and it is where the accessor [__proto__] lives. *)
Inductive ObjectClass : Type :=
| OrdinaryObject
| ArrayObject
| FunctionObject (body : Code)
| PromiseObject (state : PromiseState)
| ObjectPrototypeObject (accessor : ProtoAccessor).

Record JsObject : Type := mkObject {
  obj_class : ObjectClass;
  obj_proto : option loc;
  obj_extensible : bool;
  obj_props : list (string * Property)
}.

(** Own property lookup, first match in creation order. *)
Fixpoint own_property (key : string) (ps : list (string * Property)) : option Property :=
  match ps with
  | [] => None
  | (k, p) :: rest => if String.eqb k key then Some p else own_property key rest
  end.

(** The property an object literal or an assignment creates: writable,
    enumerable and configurable. *)
Definition data_property (v : JsValue) : Property :=
  {| prop_value := v; prop_writable := true; prop_enumerable := true;
     prop_configurable := true |}.

(** Replace the property [key] where it stands, or append it. *)
Fixpoint put_property (key : string) (p : Property) (ps : list (string * Property))
  : list (string * Property) :=
  match ps with
  | [] => [(key, p)]
  | (k, q) :: rest =>
      if String.eqb k key then (k, p) :: rest
      else (k, q) :: put_property key p rest
  end.

Fixpoint remove_property (key : string) (ps : list (string * Property))
  : list (string * Property) :=
  match ps with
  | [] => []
  | (k, q) :: rest =>
      if String.eqb k key then rest else (k, q) :: remove_property key rest
  end.

(** ** The world: heap, host and the log of remote calls *)

(** One entry per call of the remote-invocation primitive: the command
    name, the argument (absent when the call passes none), the heap as it
    was handed over, and the promise the primitive returned. *)
Record RemoteCall : Type := mkRemoteCall {
  call_cmd : string;
  call_args : option JsValue;
  call_heap : gmap loc JsObject;
  call_promise : JsValue
}.

Record World (Host : Type) : Type := mkWorld {
  heap : gmap loc JsObject;
  host : Host;
  log : list RemoteCall;
  module_default : option JsValue
}.
Arguments mkWorld {Host} _ _ _ _.
Arguments heap {Host} _.
Arguments host {Host} _.
Arguments log {Host} _.
Arguments module_default {Host} _.

(** The intrinsic objects a realm provides. *)
Record Realm : Type := mkRealm {
  Object_prototype : loc;
  Function_prototype : loc;
  Array_prototype : loc
}.

(** The own properties of the object a value refers to, as name/value
    pairs; [None] when the value is not a reference to a live object. *)
Definition record_of (h : gmap loc JsObject) (v : JsValue)
  : option (list (string * JsValue)) :=
  match v with
  | JObject l => (fun o => prod_map id prop_value <$> obj_props o) <$> h !! l
  | _ => None
  end.

(** The argument record of a remote call, read at the moment of the call. *)
Definition call_record (c : RemoteCall) : option (list (string * JsValue)) :=
  call_args c ≫= record_of (call_heap c).

Definition promise_state (h : gmap loc JsObject) (v : JsValue) : option PromiseState :=
  match v with
  | JObject l =>
      match h !! l with
      | Some {| obj_class := PromiseObject st |} => Some st
      | _ => None
      end
  | _ => None
  end.

(** ** Internal methods of ordinary objects

    The properties of the model are data properties, which are all the
    module creates, and the one accessor property every object inherits in
    a standard realm, [__proto__] of the object prototype.  The functions
    named [ordinary_] are the internal methods on data properties. *)

(** Lookup of a property along the prototype chain, starting at [l].  A
    chain cannot be longer than the number of live objects, which is the
    fuel [get] gives it. *)
Fixpoint find_property (fuel : nat) (h : gmap loc JsObject) (l : loc) (key : string)
  : option Property :=
  match fuel with
  | O => None
  | S fuel' =>
      match h !! l with
      | None => None
      | Some o =>
          match own_property key (obj_props o) with
          | Some p => Some p
          | None =>
              match obj_proto o with
              | Some parent => find_property fuel' h parent key
              | None => None
              end
          end
      end
  end.

(** The accessor [__proto__] as an own property of an object: its
    attributes when [key] is [__proto__] and the object has the accessor and
    no data property of that name. *)
Definition own_proto_accessor (o : JsObject) (key : string) : option (bool * bool) :=
  if String.eqb key "__proto__" then
    match own_property key (obj_props o), obj_class o with
    | None, ObjectPrototypeObject (Accessor e c) => Some (e, c)
    | _, _ => None
    end
  else None.

(** Whether the lookup of [__proto__] along the prototype chain that
    starts at [l] ends at the accessor: no object before it on the chain
    has a data property of that name. *)
Fixpoint finds_proto_accessor (fuel : nat) (h : gmap loc JsObject) (l : loc) : bool :=
  match fuel with
  | O => false
  | S fuel' =>
      match h !! l with
      | None => false
      | Some o =>
          match own_property "__proto__" (obj_props o) with
          | Some _ => false
          | None =>
              match own_proto_accessor o "__proto__", obj_proto o with
              | Some _, _ => true
              | None, Some parent => finds_proto_accessor fuel' h parent
              | None, None => false
              end
          end
      end
  end.

(** [[Get]]: the value of the data property found, [undefined] when there
    is none; for [__proto__], when the lookup ends at the accessor, what
    its getter returns, the prototype of the object. *)
Definition get (h : gmap loc JsObject) (l : loc) (key : string) : JsValue :=
  if String.eqb key "__proto__" && finds_proto_accessor (S (size h)) h l
  then match h !! l with
       | Some {| obj_proto := Some p |} => JObject p
       | _ => JNull
       end
  else from_option prop_value JUndefined (find_property (S (size h)) h l key).

Definition set_props (ps : list (string * Property)) (o : JsObject) : JsObject :=
  {| obj_class := obj_class o; obj_proto := obj_proto o;
     obj_extensible := obj_extensible o; obj_props := ps |}.

Definition set_value (v : JsValue) (p : Property) : Property :=
  {| prop_value := v; prop_writable := prop_writable p;
     prop_enumerable := prop_enumerable p; prop_configurable := prop_configurable p |}.

(** [[Set]] with the object itself as receiver.  A property that is not
    writable, on the object or inherited, refuses the assignment; so does
    an object that is not extensible when the property would be new. *)
Definition ordinary_set (h : gmap loc JsObject) (l : loc) (key : string) (v : JsValue)
  : bool * gmap loc JsObject :=
  match h !! l with
  | None => (false, h)
  | Some o =>
      let inherited_writable :=
        from_option prop_writable true (find_property (S (size h)) h l key) in
      if negb inherited_writable then (false, h)
      else
        match own_property key (obj_props o) with
        | Some q =>
            if prop_writable q
            then (true, <[l := set_props (put_property key (set_value v q) (obj_props o)) o]> h)
            else (false, h)
        | None =>
            if obj_extensible o
            then (true, <[l := set_props (put_property key (data_property v) (obj_props o)) o]> h)
            else (false, h)
        end
  end.

(** [[Delete]] *)
Definition ordinary_delete (h : gmap loc JsObject) (l : loc) (key : string)
  : bool * gmap loc JsObject :=
  match h !! l with
  | None => (false, h)
  | Some o =>
      match own_property key (obj_props o) with
      | None => (true, h)
      | Some q =>
          if prop_configurable q
          then (true, <[l := set_props (remove_property key (obj_props o)) o]> h)
          else (false, h)
      end
  end.

(** A property descriptor as [Object.defineProperty] takes it: every
    field may be absent. *)
Record Descriptor : Type := mkDescriptor {
  desc_value : option JsValue;
  desc_writable : option bool;
  desc_enumerable : option bool;
  desc_configurable : option bool
}.

Definition complete_descriptor (d : Descriptor) : Property :=
  {| prop_value := default JUndefined (desc_value d);
     prop_writable := default false (desc_writable d);
     prop_enumerable := default false (desc_enumerable d);
     prop_configurable := default false (desc_configurable d) |}.

Definition apply_descriptor (d : Descriptor) (p : Property) : Property :=
  {| prop_value := default (prop_value p) (desc_value d);
     prop_writable := default (prop_writable p) (desc_writable d);
     prop_enumerable := default (prop_enumerable p) (desc_enumerable d);
     prop_configurable := default (prop_configurable p) (desc_configurable d) |}.

(** Whether a descriptor may be applied to an existing property
    (ValidateAndApplyPropertyDescriptor, the checks). *)
Definition descriptor_allowed (d : Descriptor) (p : Property) : bool :=
  if prop_configurable p then true
  else
    negb (bool_decide (desc_configurable d = Some true))
    && bool_decide (desc_enumerable d = None ∨ desc_enumerable d = Some (prop_enumerable p))
    && (prop_writable p
        || (negb (bool_decide (desc_writable d = Some true))
            && bool_decide (desc_value d = None ∨ desc_value d = Some (prop_value p)))).

(** [[DefineOwnProperty]] *)
Definition ordinary_define_own_property (h : gmap loc JsObject) (l : loc) (key : string)
    (d : Descriptor) : bool * gmap loc JsObject :=
  match h !! l with
  | None => (false, h)
  | Some o =>
      match own_property key (obj_props o) with
      | None =>
          if obj_extensible o
          then (true, <[l := set_props (put_property key (complete_descriptor d) (obj_props o)) o]> h)
          else (false, h)
      | Some q =>
          if descriptor_allowed d q
          then (true, <[l := set_props (put_property key (apply_descriptor d q) (obj_props o)) o]> h)
          else (false, h)
      end
  end.

(** Whether [target] is on the prototype chain that starts at [start]. *)
Fixpoint on_chain (fuel : nat) (h : gmap loc JsObject) (start : option loc) (target : loc)
  : bool :=
  match fuel, start with
  | S fuel', Some l =>
      bool_decide (l = target)
      || match h !! l with
         | Some o => on_chain fuel' h (obj_proto o) target
         | None => false
         end
  | _, _ => false
  end.

Definition set_proto (proto : option loc) (o : JsObject) : JsObject :=
  {| obj_class := obj_class o; obj_proto := proto;
     obj_extensible := obj_extensible o; obj_props := obj_props o |}.

(** [[SetPrototypeOf]] *)
Definition ordinary_set_prototype_of (h : gmap loc JsObject) (l : loc) (proto : option loc)
  : bool * gmap loc JsObject :=
  match h !! l with
  | None => (false, h)
  | Some o =>
      if bool_decide (proto = obj_proto o) then (true, h)
      else if negb (obj_extensible o) then (false, h)
      else if on_chain (S (size h)) h proto l then (false, h)
      else (true, <[l := set_proto proto o]> h)
  end.

(** [Object.freeze]: the object stops being extensible, and each of its
    own properties stops being writable (a data property) and
    configurable. *)
Definition freeze_property (p : Property) : Property :=
  {| prop_value := prop_value p; prop_writable := false;
     prop_enumerable := prop_enumerable p; prop_configurable := false |}.

Definition freeze_class (c : ObjectClass) : ObjectClass :=
  match c with
  | ObjectPrototypeObject (Accessor e _) => ObjectPrototypeObject (Accessor e false)
  | _ => c
  end.

Definition freeze_object (o : JsObject) : JsObject :=
  {| obj_class := freeze_class (obj_class o); obj_proto := obj_proto o;
     obj_extensible := false;
     obj_props := prod_map id freeze_property <$> obj_props o |}.

Definition accessor_fixed (c : ObjectClass) : bool :=
  match c with
  | ObjectPrototypeObject (Accessor _ true) => false
  | _ => true
  end.

(** [Object.isFrozen] *)
Definition is_frozen (o : JsObject) : bool :=
  negb (obj_extensible o)
  && forallb (fun kp => negb (prop_writable kp.2) && negb (prop_configurable kp.2))
       (obj_props o)
  && accessor_fixed (obj_class o).

Definition frozen_in (h : gmap loc JsObject) (v : JsValue) : Prop :=
  ∃ l o, v = JObject l ∧ h !! l = Some o ∧ is_frozen o = true.

(** Completion of an operation that may throw.  The operations below
    throw a [TypeError]; a [RangeError] is what an array throws for a
    length that is none. *)
Inductive Completion (A : Type) : Type :=
| Normal (a : A)
| ThrowTypeError
| ThrowRangeError.
Arguments Normal {A} a.
Arguments ThrowTypeError {A}.
Arguments ThrowRangeError {A}.

(** ** The accessor [__proto__] and the object prototype *)

(** [[SetPrototypeOf]]: the prototype of the object prototype cannot be
    changed; any other object is ordinary in this respect. *)
Definition set_prototype_of (h : gmap loc JsObject) (l : loc) (proto : option loc)
  : bool * gmap loc JsObject :=
  match h !! l with
  | Some {| obj_class := ObjectPrototypeObject _; obj_proto := current |} =>
      (bool_decide (proto = current), h)
  | _ => ordinary_set_prototype_of h l proto
  end.

(** The prototype a value stands for, when it is an object or [null]. *)
Definition proto_of_value (v : JsValue) : option (option loc) :=
  match v with
  | JObject l => Some (Some l)
  | JNull => Some None
  | _ => None
  end.

(** The setter of [__proto__], called on [target] with the value
    assigned: a value that is neither an object nor [null] is ignored;
    otherwise the prototype of the target is set, and a refusal throws. *)
Definition proto_setter (h : gmap loc JsObject) (target : loc) (v : JsValue)
  : Completion JsValue * gmap loc JsObject :=
  match proto_of_value v with
  | None => (Normal v, h)
  | Some p =>
      let '(ok, h') := set_prototype_of h target p in
      (if ok then Normal v else ThrowTypeError, h')
  end.

Definition set_class (c : ObjectClass) (o : JsObject) : JsObject :=
  {| obj_class := c; obj_proto := obj_proto o;
     obj_extensible := obj_extensible o; obj_props := obj_props o |}.

(** [[Delete]]: the accessor goes when it is configurable; a data
    property as before. *)
Definition delete_property (h : gmap loc JsObject) (l : loc) (key : string)
  : bool * gmap loc JsObject :=
  match h !! l with
  | None => (false, h)
  | Some o =>
      match own_proto_accessor o key with
      | Some (e, c) =>
          if c then (true, <[l := set_class (ObjectPrototypeObject NoAccessor) o]> h)
          else (false, h)
      | None => ordinary_delete h l key
      end
  end.

(** A descriptor without [value] and without [writable]. *)
Definition is_generic (d : Descriptor) : bool :=
  match desc_value d, desc_writable d with
  | None, None => true
  | _, _ => false
  end.

(** [[DefineOwnProperty]]: on the accessor, a generic descriptor changes
    its attributes and a data descriptor replaces it by a data property,
    both only while it is configurable; once it is not, only a generic
    descriptor that changes nothing is accepted.  A data property as
    before. *)
Definition define_own_property (h : gmap loc JsObject) (l : loc) (key : string)
    (d : Descriptor) : bool * gmap loc JsObject :=
  match h !! l with
  | None => (false, h)
  | Some o =>
      match own_proto_accessor o key with
      | Some (e, c) =>
          if c then
            if is_generic d
            then (true,
                  <[l := set_class
                           (ObjectPrototypeObject
                              (Accessor (default e (desc_enumerable d))
                                        (default c (desc_configurable d)))) o]> h)
            else (true,
                  <[l := set_class (ObjectPrototypeObject NoAccessor)
                           (set_props
                              (put_property key
                                 {| prop_value := default JUndefined (desc_value d);
                                    prop_writable := default false (desc_writable d);
                                    prop_enumerable := default e (desc_enumerable d);
                                    prop_configurable := default c (desc_configurable d) |}
                                 (obj_props o)) o)]> h)
          else
            (negb (bool_decide (desc_configurable d = Some true))
             && bool_decide (desc_enumerable d = None ∨ desc_enumerable d = Some e)
             && is_generic d,
             h)
      | None => ordinary_define_own_property h l key d
      end
  end.

(** ** Arrays

    An array keeps its own property [length] above every index it holds.
    Its [[DefineOwnProperty]] does the bookkeeping; its other internal
    methods are the ordinary ones. *)

(** *** Numbers and strings as lengths *)

(** The integer a number is, when it is one in the range of a length.
    Either zero counts as zero. *)
Definition uint32_of_number (x : spec_float) : option N :=
  match x with
  | S754_zero _ => Some 0%N
  | S754_finite false m e =>
      z ← (if (0 <=? e)%Z then Some (Z.pos m * 2 ^ e)%Z
           else if (Z.pos m mod 2 ^ (- e) =? 0)%Z then Some (Z.pos m / 2 ^ (- e))%Z
           else None);
      if (z <? 2 ^ 32)%Z then Some (Z.to_N z) else None
  | _ => None
  end.

(** White space and line terminators, among the code units a string of
    the model has: tab, line feed, vertical tab, form feed, carriage
    return, space and no-break space. *)
Definition is_white_space (c : ascii) : bool :=
  let n := N_of_ascii c in
  ((9 <=? n) && (n <=? 13) || (n =? 32) || (n =? 160))%N.

Definition trim (cs : list ascii) : list ascii :=
  let drop_white := fix go (cs : list ascii) : list ascii :=
    match cs with
    | c :: rest => if is_white_space c then go rest else cs
    | [] => []
    end in
  rev (drop_white (rev (drop_white cs))).

(** The value of a digit, hexadecimal ones included. *)
Definition digit_value (c : ascii) : option Z :=
  let n := Z.of_N (N_of_ascii c) in
  if ((48 <=? n) && (n <=? 57))%Z then Some (n - 48)%Z
  else if ((97 <=? n) && (n <=? 102))%Z then Some (n - 87)%Z
  else if ((65 <=? n) && (n <=? 70))%Z then Some (n - 55)%Z
  else None.

Fixpoint digits_value_from (base acc : Z) (cs : list ascii) : option Z :=
  match cs with
  | [] => Some acc
  | c :: rest =>
      match digit_value c with
      | Some d =>
          if (d <? base)%Z then digits_value_from base (acc * base + d)%Z rest else None
      | None => None
      end
  end.

(** The value of a sequence of digits of a base, which has one digit at
    least. *)
Definition digits_value (base : Z) (cs : list ascii) : option Z :=
  match cs with
  | [] => None
  | _ => digits_value_from base 0 cs
  end.

(** The characters before the first one that [p] holds of, and those
    after it when there is one. *)
Fixpoint split_at (p : ascii -> bool) (cs : list ascii)
  : list ascii * option (list ascii) :=
  match cs with
  | [] => ([], None)
  | c :: rest =>
      if p c then ([], Some rest)
      else let '(before, after) := split_at p rest in (c :: before, after)
  end.

Definition is_char (s : string) (c : ascii) : bool :=
  bool_decide (c ∈ list_ascii_of_string s).

(** An optional sign: whether it is the minus sign, and what follows. *)
Definition signed (cs : list ascii) : bool * list ascii :=
  match cs with
  | c :: rest =>
      if is_char "-" c then (true, rest)
      else if is_char "+" c then (false, rest)
      else (false, cs)
  | [] => (false, [])
  end.

(** A decimal literal without sign, [digits.digits e±digits] with the
    parts that may be left out: its digits as an integer and the power of
    ten that multiplies them. *)
Definition unsigned_decimal (cs : list ascii) : option (Z * Z) :=
  let '(mantissa, exponent) := split_at (is_char "eE") cs in
  e ← match exponent with
      | None => Some 0%Z
      | Some es =>
          let '(negative, ds) := signed es in
          (fun z => if negative then (- z)%Z else z) <$> digits_value 10 ds
      end;
  let '(whole, fraction) := split_at (is_char ".") mantissa in
  match fraction with
  | None => (fun m => (m, e)) <$> digits_value 10 whole
  | Some fs =>
      match whole, fs with
      | [], [] => None
      | _, _ =>
          m ← digits_value_from 10 0 (whole ++ fs);
          Some (m, (e - Z.of_nat (length fs))%Z)
      end
  end.

(** The integer literals of base 16, 8 and 2. *)
Definition non_decimal (cs : list ascii) : option Z :=
  match cs with
  | zero :: letter :: ds =>
      if is_char "0" zero then
        if is_char "xX" letter then digits_value 16 ds
        else if is_char "oO" letter then digits_value 8 ds
        else if is_char "bB" letter then digits_value 2 ds
        else None
      else None
  | _ => None
  end.

(** The double nearest to [m * 10 ^ e], for [m] positive, with the sign
    asked for.  A negative power of ten is divided out at a precision
    beyond that of any double, and what the division leaves is kept as one
    more bit, so that the rounding is that of the exact quotient. *)
Definition round_decimal (negative : bool) (m e : Z) : spec_float :=
  let sign z := if negative then (- z)%Z else z in
  if (0 <=? e)%Z then binary_normalize 53 1024 (sign (m * 10 ^ e)%Z) 0 negative
  else
    let n := (m * 2 ^ 1100)%Z in
    let d := (10 ^ (- e))%Z in
    let rest := if (n mod d =? 0)%Z then 0%Z else 1%Z in
    binary_normalize 53 1024 (sign (2 * (n / d) + rest)%Z) (- 1101) negative.

(** The number a string converts to (StringToNumber): [NaN] when it is
    not a numeric literal between white space. *)
Definition string_to_number (s : string) : spec_float :=
  match trim (list_ascii_of_string s) with
  | [] => S754_zero false
  | cs =>
      match non_decimal cs with
      | Some z => number_of_Z z
      | None =>
          let '(negative, body) := signed cs in
          if bool_decide (body = list_ascii_of_string "Infinity")
          then S754_infinity negative
          else match unsigned_decimal body with
               | Some (m, e) => round_decimal negative m e
               | None => S754_nan
               end
      end
  end.

(** The length a value stands for (ToUint32, which has to agree with
    ToNumber).  A value that converts to no length throws a [RangeError].
    The conversion of an object goes through its methods [valueOf] and
    [toString]; the functions of the model are those of the class, which
    return no primitive value, so that it throws a [TypeError]. *)
Definition to_length (v : JsValue) : Completion N :=
  let number_to_length x :=
    match uint32_of_number x with
    | Some n => Normal n
    | None => ThrowRangeError
    end in
  match v with
  | JUndefined => ThrowRangeError
  | JNull => Normal 0%N
  | JBoolean b => Normal (if b then 1 else 0)%N
  | JNumber x => number_to_length x
  | JString s => number_to_length (string_to_number s)
  | JObject _ => ThrowTypeError
  end.

Definition number_of_N (n : N) : JsValue := JNumber (number_of_Z (Z.of_N n)).

(** The index a property name is, when it is one: the decimal digits,
    without leading zero, of an integer below [2 ^ 32 - 1]. *)
Definition array_index (key : string) : option N :=
  match list_ascii_of_string key with
  | [] => None
  | c :: rest =>
      if is_char "0" c && negb (bool_decide (rest = [])) then None
      else
        z ← digits_value 10 (c :: rest);
        if (z <? 2 ^ 32 - 1)%Z then Some (Z.to_N z) else None
  end.

(** *** [[DefineOwnProperty]] of an array *)

(** [[DefineOwnProperty]] of an ordinary object, on the object. *)
Definition define_in (o : JsObject) (key : string) (d : Descriptor) : bool * JsObject :=
  match own_property key (obj_props o) with
  | None =>
      if obj_extensible o
      then (true, set_props (put_property key (complete_descriptor d) (obj_props o)) o)
      else (false, o)
  | Some q =>
      if descriptor_allowed d q
      then (true, set_props (put_property key (apply_descriptor d q) (obj_props o)) o)
      else (false, o)
  end.

(** The length of an array with the property that holds it.  Every array
    has one; an object of the class that has none is treated as an
    ordinary object. *)
Definition array_length (o : JsObject) : option (N * Property) :=
  q ← own_property "length" (obj_props o);
  match prop_value q with
  | JNumber x => n ← uint32_of_number x; Some (n, q)
  | _ => None
  end.

(** A descriptor with nothing but a value. *)
Definition value_descriptor (v : JsValue) : Descriptor :=
  {| desc_value := Some v; desc_writable := None; desc_enumerable := None;
     desc_configurable := None |}.

(** The descriptor of the property an assignment creates. *)
Definition data_descriptor (v : JsValue) : Descriptor :=
  {| desc_value := Some v; desc_writable := Some true; desc_enumerable := Some true;
     desc_configurable := Some true |}.

(** Where a truncation to [n] stops: above the highest element, at [n]
    or above it, that is not configurable. *)
Definition truncation_stop (n : N) (ps : list (string * Property)) : N :=
  fold_right
    (fun kp stop =>
       match array_index kp.1 with
       | Some i =>
           if (n <=? i)%N && negb (prop_configurable kp.2) then N.max stop (i + 1) else stop
       | None => stop
       end)
    n ps.

(** The properties left when the elements at [stop] and above go. *)
Definition truncate (stop : N) (ps : list (string * Property))
  : list (string * Property) :=
  List.filter (fun kp => match array_index kp.1 with
                         | Some i => (i <? stop)%N
                         | None => true
                         end) ps.

(** ArraySetLength.  A descriptor without value is applied as to an
    ordinary property.  A length that is not below the present one is
    defined as an ordinary value.  A shorter one deletes the elements from
    the top down to it, and stops above the first that cannot be deleted:
    the length is set to where it stopped, and the definition is refused
    when that is not the length asked for.  A descriptor that makes the
    length read-only does so after the elements are gone. *)
Definition array_set_length (o : JsObject) (d : Descriptor) : Completion bool * JsObject :=
  match desc_value d, array_length o with
  | Some v, Some (old, q) =>
      match to_length v with
      | Normal n =>
          let d_n :=
            {| desc_value := Some (number_of_N n); desc_writable := desc_writable d;
               desc_enumerable := desc_enumerable d;
               desc_configurable := desc_configurable d |} in
          if (old <=? n)%N then
            let '(ok, o') := define_in o "length" d_n in (Normal ok, o')
          else if negb (prop_writable q) then (Normal false, o)
          else
            let new_writable := default true (desc_writable d) in
            let d_first :=
              {| desc_value := Some (number_of_N n);
                 desc_writable := if new_writable then desc_writable d else Some true;
                 desc_enumerable := desc_enumerable d;
                 desc_configurable := desc_configurable d |} in
            let '(ok, o1) := define_in o "length" d_first in
            if negb ok then (Normal false, o)
            else
              let stop := truncation_stop n (obj_props o1) in
              let d_last :=
                {| desc_value := Some (number_of_N stop);
                   desc_writable := if new_writable then None else Some false;
                   desc_enumerable := None; desc_configurable := None |} in
              (Normal (bool_decide (stop = n)),
               (define_in (set_props (truncate stop (obj_props o1)) o1) "length" d_last).2)
      | ThrowTypeError => (ThrowTypeError, o)
      | ThrowRangeError => (ThrowRangeError, o)
      end
  | _, _ => let '(ok, o') := define_in o "length" d in (Normal ok, o')
  end.

(** [[DefineOwnProperty]] of an array, on the object: the length as
    above; an element at or above the length needs a length that is
    writable, and moves it to just above itself; any other property as on
    an ordinary object. *)
Definition array_define (o : JsObject) (key : string) (d : Descriptor)
  : Completion bool * JsObject :=
  if String.eqb key "length" then array_set_length o d
  else
    match array_index key, array_length o with
    | Some i, Some (len, q) =>
        if (len <=? i)%N && negb (prop_writable q) then (Normal false, o)
        else
          let '(ok, o1) := define_in o key d in
          if negb ok then (Normal false, o)
          else if (len <=? i)%N
               then (Normal true,
                     (define_in o1 "length" (value_descriptor (number_of_N (i + 1)))).2)
               else (Normal true, o1)
    | _, _ => let '(ok, o') := define_in o key d in (Normal ok, o')
    end.

Definition array_define_own_property (h : gmap loc JsObject) (l : loc) (key : string)
    (d : Descriptor) : Completion bool * gmap loc JsObject :=
  match h !! l with
  | None => (Normal false, h)
  | Some o => let '(outcome, o') := array_define o key d in (outcome, <[l := o']> h)
  end.

(** [[Set]] with the array itself as receiver: as on an ordinary object,
    save that the property is written, or created, by the
    [[DefineOwnProperty]] of the array. *)
Definition array_set (h : gmap loc JsObject) (l : loc) (key : string) (v : JsValue)
  : Completion bool * gmap loc JsObject :=
  match h !! l with
  | None => (Normal false, h)
  | Some o =>
      let inherited_writable :=
        from_option prop_writable true (find_property (S (size h)) h l key) in
      if negb inherited_writable then (Normal false, h)
      else
        match own_property key (obj_props o) with
        | Some q =>
            if prop_writable q
            then array_define_own_property h l key (value_descriptor v)
            else (Normal false, h)
        | None => array_define_own_property h l key (data_descriptor v)
        end
  end.

Definition is_array (h : gmap loc JsObject) (l : loc) : bool :=
  match h !! l with
  | Some {| obj_class := ArrayObject |} => true
  | _ => false
  end.

(** What a statement makes of the answer of an internal method: a refused
    assignment throws in strict code only, a refused definition throws. *)
Definition assignment_outcome (strict : bool) (value : JsValue) (answer : Completion bool)
  : Completion JsValue :=
  match answer with
  | Normal ok => if negb ok && strict then ThrowTypeError else Normal value
  | ThrowTypeError => ThrowTypeError
  | ThrowRangeError => ThrowRangeError
  end.

Definition definition_outcome (target : loc) (answer : Completion bool)
  : Completion JsValue :=
  match answer with
  | Normal ok => if ok then Normal (JObject target) else ThrowTypeError
  | ThrowTypeError => ThrowTypeError
  | ThrowRangeError => ThrowRangeError
  end.

(** ** A state monad over the world *)

Definition M (Host A : Type) : Type := World Host -> A * World Host.

Global Instance M_ret {Host : Type} : MRet (M Host) :=
  fun A (a : A) w => (a, w).

Global Instance M_bind {Host : Type} : MBind (M Host) :=
  fun A B (f : A -> M Host B) (m : M Host A) w => let '(a, w') := m w in f a w'.

Definition set_heap {Host : Type} (h : gmap loc JsObject) (w : World Host) : World Host :=
  {| heap := h; host := host w; log := log w; module_default := module_default w |}.

(** Allocation of a new object at an address no live object has. *)
Definition alloc {Host : Type} (o : JsObject) : M Host loc :=
  fun w =>
    let l := fresh (dom (heap w)) in
    (l, set_heap (<[l := o]> (heap w)) w).

(** ** The operations of the service, each with its arguments *)

Inductive Operation : Type :=
| OpenWindow (configuration : JsValue)
| OpenEmptyWindow (configuration options : JsValue)
| OpenExistingWindow (configuration windowToUse : JsValue)
| SendToFocused (channel payload : JsValue)
| SendToAll (channel payload : JsValue)
| GetFocusedWindow
| GetLastActiveWindow.

(** ** Attempts to modify an object *)

Inductive Modification : Type :=
| Assign (strict : bool) (key : string) (value : JsValue)
    (** [target[key] = value], in strict or in sloppy code *)
| Delete (strict : bool) (key : string)
    (** [delete target[key]] *)
| DefineProperty (key : string) (desc : Descriptor)
    (** [Object.defineProperty(target, key, desc)] *)
| SetPrototypeOf (proto : option loc)
    (** [Object.setPrototypeOf(target, proto)] *).

(** A property that is writable and configurable but not enumerable, as
    class evaluation creates them. *)
Definition hidden_property (v : JsValue) : Property :=
  {| prop_value := v; prop_writable := true; prop_enumerable := false;
     prop_configurable := true |}.

Definition readonly_property (v : JsValue) : Property :=
  {| prop_value := v; prop_writable := false; prop_enumerable := false;
     prop_configurable := true |}.

Definition fixed_property (v : JsValue) : Property :=
  {| prop_value := v; prop_writable := false; prop_enumerable := false;
     prop_configurable := false |}.

Definition add_property (key : string) (p : Property) (o : JsObject) : JsObject :=
  set_props (put_property key p (obj_props o)) o.

Definition set_module {Host : Type} (v : option JsValue) (w : World Host) : World Host :=
  {| heap := heap w; host := host w; log := log w; module_default := v |}.

Definition modify_object {Host : Type} (l : loc) (f : JsObject -> JsObject) : M Host unit :=
  fun w => (tt, set_heap (alter f l (heap w)) w).

(** [Object.freeze(v)] returns its argument, frozen when it is an object. *)
Definition Object_freeze {Host : Type} (v : JsValue) : M Host JsValue :=
  match v with
  | JObject l => _ ← modify_object l freeze_object; mret v
  | _ => mret v
  end.

(** ** The client *)

Section Client.

Variable Host : Type.
Variable realm : Realm.

(** The remote-invocation primitive (send a named command and an
    argument record, receive a promise of reply or error).  It is outside
    the repository, so it is arbitrary here: it sees the command name, the
    argument, the heap and the state of the host, and it answers with a
    value (the promise), a heap and a host state. *)
Variable primitive :
  string -> option JsValue -> gmap loc JsObject -> Host ->
  JsValue * gmap loc JsObject * Host.

(** [invoke(cmd, args?)] of [@tauri-apps/api/tauri]: the primitive, with
    the call recorded. *)
Definition invoke (cmd : string) (args : option JsValue) : M Host JsValue :=
  fun w =>
    let '(p, h', s') := primitive cmd args (heap w) (host w) in
    (p, {| heap := h'; host := s';
           log := log w ++ [mkRemoteCall cmd args (heap w) p];
           module_default := module_default w |}).

(** An object literal [{ k1: v1, ..., kn: vn }]: a new extensible
    ordinary object whose properties are created in source order. *)
Definition literal_object (fields : list (string * JsValue)) : JsObject :=
  {| obj_class := OrdinaryObject;
     obj_proto := Some (Object_prototype realm);
     obj_extensible := true;
     obj_props :=
       fold_left (fun ps kv => put_property kv.1 (data_property kv.2) ps) fields [] |}.

Definition object_literal (fields : list (string * JsValue)) : M Host JsValue :=
  l ← alloc (literal_object fields); mret (JObject l).

(** An array literal [[v0, ..., vn]]: indexed properties, then
    [length]. *)
Definition array_object (elements : list JsValue) : JsObject :=
  {| obj_class := ArrayObject;
     obj_proto := Some (Array_prototype realm);
     obj_extensible := true;
     obj_props :=
       imap (fun i v => (pretty i, data_property v)) elements
       ++ [("length",
            {| prop_value := JNumber (number_of_Z (Z.of_nat (length elements)));
               prop_writable := true; prop_enumerable := false;
               prop_configurable := false |})] |}.

Definition array_literal (elements : list JsValue) : M Host JsValue :=
  l ← alloc (array_object elements); mret (JObject l).

(** *** The caller's side: values of the types of [windows.d.ts] *)

Definition nullable {T : Type} (f : T -> JsValue) (x : Nullable T) : JsValue :=
  match x with
  | Present t => f t
  | IsNull => JNull
  | IsUndefined => JUndefined
  end.

Definition new_WindowOpenable (o : WindowOpenable) : M Host JsValue :=
  object_literal
    [("folder_uri", nullable JString (folder_uri o));
     ("file_uri", nullable JString (file_uri o))].

Fixpoint new_each {T : Type} (f : T -> M Host JsValue) (xs : list T)
  : M Host (list JsValue) :=
  match xs with
  | [] => mret []
  | x :: rest => v ← f x; vs ← new_each f rest; mret (v :: vs)
  end.

Definition new_OpenConfiguration (c : OpenConfiguration) : M Host JsValue :=
  uris ← match uris_to_open c with
         | Present os => vs ← new_each new_WindowOpenable os; array_literal vs
         | IsNull => mret JNull
         | IsUndefined => mret JUndefined
         end;
  object_literal
    [("label", nullable JString (label c));
     ("url", nullable JString (url c));
     ("uris_to_open", uris);
     ("context_window_label", nullable JString (context_window_label c));
     ("context", JNumber (number_of_Z (OpenContext_code (context c))));
     ("force_new_window", JBoolean (force_new_window c));
     ("force_new_tabbed_window", JBoolean (force_new_tabbed_window c));
     ("force_reuse_window", JBoolean (force_reuse_window c));
     ("force_empty_window", JBoolean (force_empty_window c));
     ("prefer_new_window", JBoolean (prefer_new_window c));
     ("initial_startup", JBoolean (initial_startup c));
     ("diff_mode", JBoolean (diff_mode c))].

Definition new_WindowSize (z : WindowSize) : M Host JsValue :=
  object_literal [("width", JNumber (width z)); ("height", JNumber (height z))].

Definition new_WindowPosition (p : WindowPosition) : M Host JsValue :=
  object_literal [("x", JNumber (x p)); ("y", JNumber (y p))].

Definition new_nullable {T : Type} (f : T -> M Host JsValue) (v : Nullable T)
  : M Host JsValue :=
  match v with
  | Present t => f t
  | IsNull => mret JNull
  | IsUndefined => mret JUndefined
  end.

Definition new_FilesToOpen (f : FilesToOpen) : M Host JsValue :=
  to_open ← array_literal (JString <$> files_to_open_or_create f);
  to_diff ← array_literal (JString <$> files_to_diff f);
  to_wait ← array_literal (JString <$> files_to_wait f);
  object_literal
    [("files_to_open_or_create", to_open);
     ("files_to_diff", to_diff);
     ("files_to_wait", to_wait)].

Definition new_WindowOptions (o : WindowOptions) : M Host JsValue :=
  let t := tauri_options o in
  inner ← new_nullable new_WindowSize (inner_size t);
  max_inner ← new_nullable new_WindowSize (max_inner_size t);
  min_inner ← new_nullable new_WindowSize (min_inner_size t);
  pos ← new_nullable new_WindowPosition (position t);
  backup ← new_nullable
             (fun b => object_literal [("backup_folder", JString (backup_folder b))])
             (empty_window_backup_info o);
  files ← new_FilesToOpen (files_to_open o);
  object_literal
    [("label", nullable JString (window_label t));
     ("url", nullable JString (window_url t));
     ("always_on_top", nullable JBoolean (always_on_top t));
     ("center", JBoolean (center t));
     ("decorations", nullable JBoolean (decorations t));
     ("focus", JBoolean (focus t));
     ("fullscreen", nullable JBoolean (fullscreen t));
     ("inner_size", inner);
     ("max_inner_size", max_inner);
     ("maximized", nullable JBoolean (maximized t));
     ("min_inner_size", min_inner);
     ("position", pos);
     ("resizable", nullable JBoolean (resizable t));
     ("skip_taskbar", nullable JBoolean (skip_taskbar t));
     ("theme", nullable (fun th => JNumber (number_of_Z (Theme_code th))) (theme t));
     ("title", nullable JString (title t));
     ("transparent", nullable JBoolean (transparent t));
     ("visible", nullable JBoolean (visible t));
     ("initial_startup", JBoolean (options_initial_startup o));
     ("force_new_window", JBoolean (options_force_new_window o));
     ("force_new_tabbed_window", JBoolean (options_force_new_tabbed_window o));
     ("force_reuse_window", JBoolean (options_force_reuse_window o));
     ("force_empty_window", JBoolean (options_force_empty_window o));
     ("empty_window_backup_info", backup);
     ("files_to_open", files);
     ("window_to_use", nullable JString (window_to_use o));
     ("folder", nullable JString (folder o))].

(** *** [class Windows] *)

Definition constructor (this : JsValue) : M Host unit := mret tt.

Definition open_window (configuration : JsValue) : M Host JsValue :=
  args ← object_literal [("configuration", configuration)];
  invoke "plugin:windows|open_window" (Some args).

Definition open_empty_window (configuration options : JsValue) : M Host JsValue :=
  args ← object_literal [("configuration", configuration); ("options", options)];
  invoke "plugin:windows|open_empty_window" (Some args).

Definition open_existing_window (configuration windowToUse : JsValue) : M Host JsValue :=
  args ← object_literal [("configuration", configuration); ("windowToUse", windowToUse)];
  invoke "plugin:windows|open_existing_window" (Some args).

Definition send_to_focused (channel payload : JsValue) : M Host JsValue :=
  args ← object_literal [("channel", channel); ("payload", payload)];
  invoke "plugin:windows|send_to_focused" (Some args).

Definition send_to_all (channel payload : JsValue) : M Host JsValue :=
  args ← object_literal [("channel", channel); ("payload", payload)];
  invoke "plugin:windows|send_to_all" (Some args).

Definition get_focused_window : M Host JsValue :=
  invoke "plugin:windows|get_focused_window" None.

Definition get_last_active_window : M Host JsValue :=
  invoke "plugin:windows|get_last_active_window" None.

(** *** The operations of the service *)

Definition perform (op : Operation) : M Host JsValue :=
  match op with
  | OpenWindow configuration => open_window configuration
  | OpenEmptyWindow configuration options => open_empty_window configuration options
  | OpenExistingWindow configuration windowToUse =>
      open_existing_window configuration windowToUse
  | SendToFocused channel payload => send_to_focused channel payload
  | SendToAll channel payload => send_to_all channel payload
  | GetFocusedWindow => get_focused_window
  | GetLastActiveWindow => get_last_active_window
  end.

(** *** Evaluation of the module *)

Definition function_object (name : string) (arity : Z) (body : Code)
    (more : list (string * Property)) : JsObject :=
  {| obj_class := FunctionObject body;
     obj_proto := Some (Function_prototype realm);
     obj_extensible := true;
     obj_props :=
       [("length", readonly_property (JNumber (number_of_Z arity)));
        ("name", readonly_property (JString name))] ++ more |}.

Definition define_method (proto : loc) (name : string) (arity : Z) (body : Code)
  : M Host unit :=
  f ← alloc (function_object name arity body []);
  modify_object proto (add_property name (hidden_property (JObject f))).

(** [class Windows { ... }]: the prototype object with the seven methods
    and the constructor function; the result is the constructor. *)
Definition class_Windows : M Host loc :=
  proto ← alloc {| obj_class := OrdinaryObject;
                   obj_proto := Some (Object_prototype realm);
                   obj_extensible := true; obj_props := [] |};
  F ← alloc (function_object "Windows" 0 Windows_constructor
               [("prototype", fixed_property (JObject proto))]);
  _ ← modify_object proto (add_property "constructor" (hidden_property (JObject F)));
  _ ← define_method proto "open_window" 1 Windows_open_window;
  _ ← define_method proto "open_empty_window" 2 Windows_open_empty_window;
  _ ← define_method proto "open_existing_window" 2 Windows_open_existing_window;
  _ ← define_method proto "send_to_focused" 2 Windows_send_to_focused;
  _ ← define_method proto "send_to_all" 2 Windows_send_to_all;
  _ ← define_method proto "get_focused_window" 0 Windows_get_focused_window;
  _ ← define_method proto "get_last_active_window" 0 Windows_get_last_active_window;
  mret F.

(** [new Windows()]: a new object whose prototype is the [prototype]
    property of the constructor (the realm's object prototype should that
    not be an object), on which the constructor body runs. *)
Definition new_Windows (F : loc) : M Host JsValue :=
  fun w =>
    let proto :=
      match get (heap w) F "prototype" with
      | JObject p => p
      | _ => Object_prototype realm
      end in
    (this ← alloc {| obj_class := OrdinaryObject; obj_proto := Some proto;
                     obj_extensible := true; obj_props := [] |};
     _ ← constructor (JObject this);
     mret (JObject this)) w.

(** The module body:
    [const WindowsService = new Windows(); Object.freeze(WindowsService);
     export default WindowsService;] *)
Definition module_body : M Host JsValue :=
  F ← class_Windows;
  WindowsService ← new_Windows F;
  _ ← Object_freeze WindowsService;
  mret WindowsService.

(** [import WindowsService from ...]: a module is evaluated the first
    time it is imported; later imports read the binding it exported. *)
Definition import_WindowsService : M Host JsValue :=
  fun w =>
    match module_default w with
    | Some v => (v, w)
    | None =>
        let '(v, w') := module_body w in
        (v, set_module (Some v) w')
    end.

(** *** Method calls on an object *)

(** A function body applied to arguments: a missing argument is
    [undefined], the arguments beyond the parameters are ignored.  A class
    constructor throws when it is called without [new]. *)
Definition apply_code (body : Code) (this : JsValue) (args : list JsValue)
  : M Host (Completion JsValue) :=
  let arg i := nth i args JUndefined in
  match body with
  | Windows_constructor => mret ThrowTypeError
  | Windows_open_window => r ← open_window (arg 0); mret (Normal r)
  | Windows_open_empty_window => r ← open_empty_window (arg 0) (arg 1); mret (Normal r)
  | Windows_open_existing_window =>
      r ← open_existing_window (arg 0) (arg 1); mret (Normal r)
  | Windows_send_to_focused => r ← send_to_focused (arg 0) (arg 1); mret (Normal r)
  | Windows_send_to_all => r ← send_to_all (arg 0) (arg 1); mret (Normal r)
  | Windows_get_focused_window => r ← get_focused_window; mret (Normal r)
  | Windows_get_last_active_window => r ← get_last_active_window; mret (Normal r)
  end.

(** [receiver[name](...args)]: the property is looked up along the
    prototype chain and must be a function. *)
Definition call_method (receiver : loc) (name : string) (args : list JsValue)
  : M Host (Completion JsValue) :=
  fun w =>
    match get (heap w) receiver name with
    | JObject f =>
        match heap w !! f with
        | Some {| obj_class := FunctionObject body |} =>
            apply_code body (JObject receiver) args w
        | _ => (ThrowTypeError, w)
        end
    | _ => (ThrowTypeError, w)
    end.

(** *** Attempts to modify an object *)

(** A refused assignment or deletion throws in strict code and is
    ignored in sloppy code; [Object.defineProperty] and
    [Object.setPrototypeOf] throw when refused.  An assignment to
    [__proto__] that finds the accessor calls its setter, which throws or
    not whatever the mode.  An array writes and defines its properties
    with its own [[DefineOwnProperty]], which throws, in either mode, for
    a length that is none. *)
Definition attempt (m : Modification) (target : loc) : M Host (Completion JsValue) :=
  fun w =>
    match m with
    | Assign strict key value =>
        if String.eqb key "__proto__"
           && finds_proto_accessor (S (size (heap w))) (heap w) target
        then
          let '(outcome, h) := proto_setter (heap w) target value in
          (outcome, set_heap h w)
        else if is_array (heap w) target then
          let '(answer, h) := array_set (heap w) target key value in
          (assignment_outcome strict value answer, set_heap h w)
        else
          let '(ok, h) := ordinary_set (heap w) target key value in
          (if negb ok && strict then ThrowTypeError else Normal value, set_heap h w)
    | Delete strict key =>
        let '(ok, h) := delete_property (heap w) target key in
        (if negb ok && strict then ThrowTypeError else Normal (JBoolean ok), set_heap h w)
    | DefineProperty key desc =>
        if is_array (heap w) target then
          let '(answer, h) := array_define_own_property (heap w) target key desc in
          (definition_outcome target answer, set_heap h w)
        else
          let '(ok, h) := define_own_property (heap w) target key desc in
          (if ok then Normal (JObject target) else ThrowTypeError, set_heap h w)
    | SetPrototypeOf proto =>
        let '(ok, h) := set_prototype_of (heap w) target proto in
        (if ok then Normal (JObject target) else ThrowTypeError, set_heap h w)
    end.


End Client.

(** ** The interface table of the specification *)

(** The command name the specification gives for each operation. *)
Definition command_of (op : Operation) : string :=
  match op with
  | OpenWindow _ => "plugin:windows|open_window"
  | OpenEmptyWindow _ _ => "plugin:windows|open_empty_window"
  | OpenExistingWindow _ _ => "plugin:windows|open_existing_window"
  | SendToFocused _ _ => "plugin:windows|send_to_focused"
  | SendToAll _ _ => "plugin:windows|send_to_all"
  | GetFocusedWindow => "plugin:windows|get_focused_window"
  | GetLastActiveWindow => "plugin:windows|get_last_active_window"
  end.

(** The named arguments the specification gives for each operation;
    [None] where the table says "none". *)
Definition arguments_of (op : Operation) : option (list (string * JsValue)) :=
  match op with
  | OpenWindow configuration => Some [("configuration", configuration)]
  | OpenEmptyWindow configuration options =>
      Some [("configuration", configuration); ("options", options)]
  | OpenExistingWindow configuration windowToUse =>
      Some [("configuration", configuration); ("windowToUse", windowToUse)]
  | SendToFocused channel payload => Some [("channel", channel); ("payload", payload)]
  | SendToAll channel payload => Some [("channel", channel); ("payload", payload)]
  | GetFocusedWindow => None
  | GetLastActiveWindow => None
  end.

(** The request an operation is expected to issue in a world: the
    argument it hands to the primitive and the heap at that moment.  With
    named arguments the argument is a reference to a new record holding
    exactly them; without, no argument is passed and the heap is as it
    was. *)
Definition expected_argument (op : Operation) (h : gmap loc JsObject) : option JsValue :=
  match arguments_of op with
  | Some _ => Some (JObject (fresh (dom h)))
  | None => None
  end.

Definition expected_heap (realm : Realm) (op : Operation) (h : gmap loc JsObject)
  : gmap loc JsObject :=
  match arguments_of op with
  | Some fields =>
      <[fresh (dom h) :=
          {| obj_class := OrdinaryObject;
             obj_proto := Some (Object_prototype realm);
             obj_extensible := true;
             obj_props := prod_map id data_property <$> fields |}]> h
  | None => h
  end.

(** The method of the class behind each operation, and the arguments the
    call passes. *)
Definition method_name (op : Operation) : string :=
  match op with
  | OpenWindow _ => "open_window"
  | OpenEmptyWindow _ _ => "open_empty_window"
  | OpenExistingWindow _ _ => "open_existing_window"
  | SendToFocused _ _ => "send_to_focused"
  | SendToAll _ _ => "send_to_all"
  | GetFocusedWindow => "get_focused_window"
  | GetLastActiveWindow => "get_last_active_window"
  end.

Definition method_body (op : Operation) : Code :=
  match op with
  | OpenWindow _ => Windows_open_window
  | OpenEmptyWindow _ _ => Windows_open_empty_window
  | OpenExistingWindow _ _ => Windows_open_existing_window
  | SendToFocused _ _ => Windows_send_to_focused
  | SendToAll _ _ => Windows_send_to_all
  | GetFocusedWindow => Windows_get_focused_window
  | GetLastActiveWindow => Windows_get_last_active_window
  end.

Definition method_arguments (op : Operation) : list JsValue :=
  match op with
  | OpenWindow configuration => [configuration]
  | OpenEmptyWindow configuration options => [configuration; options]
  | OpenExistingWindow configuration windowToUse => [configuration; windowToUse]
  | SendToFocused channel payload => [channel; payload]
  | SendToAll channel payload => [channel; payload]
  | GetFocusedWindow => []
  | GetLastActiveWindow => []
  end.

(** The prototype object [P] holds, under [name], a function with the
    given body. *)
Definition has_method (h : gmap loc JsObject) (P : loc) (name : string) (body : Code)
  : Prop :=
  ∃ oP f fo,
    h !! P = Some oP
    ∧ own_property name (obj_props oP) = Some (hidden_property (JObject f))
    ∧ h !! f = Some fo
    ∧ obj_class fo = FunctionObject body.

(** The [prototype] property of the constructor [F] is [P]. *)
Definition has_prototype (h : gmap loc JsObject) (F P : loc) : Prop :=
  ∃ oF,
    h !! F = Some oF
    ∧ own_property "prototype" (obj_props oF) = Some (fixed_property (JObject P)).

(** The heap after [define_method]. *)
Definition method_defined (realm : Realm) (P : loc) (name : string) (arity : Z)
    (body : Code) (h : gmap loc JsObject) : gmap loc JsObject :=
  alter (add_property name (hidden_property (JObject (fresh (dom h))))) P
    (<[fresh (dom h) := function_object realm name arity body []]> h).

(** The heap after the evaluation of [class Windows { ... }], with the
    addresses of the prototype object and of the constructor. *)
Definition class_prototype (h : gmap loc JsObject) : loc := fresh (dom h).

Definition class_declared (realm : Realm) (h : gmap loc JsObject) : gmap loc JsObject :=
  <[class_prototype h :=
      {| obj_class := OrdinaryObject; obj_proto := Some (Object_prototype realm);
         obj_extensible := true; obj_props := [] |}]> h.

Definition class_constructor (realm : Realm) (h : gmap loc JsObject) : loc :=
  fresh (dom (class_declared realm h)).

Definition class_evaluated (realm : Realm) (h : gmap loc JsObject) : gmap loc JsObject :=
  let P := class_prototype h in
  let F := class_constructor realm h in
  method_defined realm P "get_last_active_window" 0 Windows_get_last_active_window
    (method_defined realm P "get_focused_window" 0 Windows_get_focused_window
       (method_defined realm P "send_to_all" 2 Windows_send_to_all
          (method_defined realm P "send_to_focused" 2 Windows_send_to_focused
             (method_defined realm P "open_existing_window" 2 Windows_open_existing_window
                (method_defined realm P "open_empty_window" 2 Windows_open_empty_window
                   (method_defined realm P "open_window" 1 Windows_open_window
                      (alter (add_property "constructor" (hidden_property (JObject F))) P
                         (<[F := function_object realm "Windows" 0 Windows_constructor
                                   [("prototype", fixed_property (JObject P))]]>
                            (class_declared realm h))))))))).

(** The heap after the module body, with the address of the instance. *)
Definition service_address (realm : Realm) (h : gmap loc JsObject) : loc :=
  fresh (dom (class_evaluated realm h)).

Definition module_evaluated (realm : Realm) (h : gmap loc JsObject) : gmap loc JsObject :=
  alter freeze_object (service_address realm h)
    (<[service_address realm h :=
         {| obj_class := OrdinaryObject; obj_proto := Some (class_prototype h);
            obj_extensible := true; obj_props := [] |}]>
       (class_evaluated realm h)).

(** The worlds the module can be in: not evaluated yet, or evaluated with
    its export still frozen. *)
Definition service_ready {Host : Type} (w : World Host) : Prop :=
  ∀ v, module_default w = Some v -> frozen_in (heap w) v.

(** ** Callers of the service *)

(** The operation a method call stands for.  Parameters are bound by
    position: a parameter without argument is [undefined], arguments beyond
    the parameters are dropped.  A name that is not one of the seven
    methods stands for no operation. *)
Definition operation_of_call (name : string) (args : list JsValue) : option Operation :=
  let arg i := nth i args JUndefined in
  if String.eqb name "open_window" then Some (OpenWindow (arg 0))
  else if String.eqb name "open_empty_window" then Some (OpenEmptyWindow (arg 0) (arg 1))
  else if String.eqb name "open_existing_window"
       then Some (OpenExistingWindow (arg 0) (arg 1))
  else if String.eqb name "send_to_focused" then Some (SendToFocused (arg 0) (arg 1))
  else if String.eqb name "send_to_all" then Some (SendToAll (arg 0) (arg 1))
  else if String.eqb name "get_focused_window" then Some GetFocusedWindow
  else if String.eqb name "get_last_active_window" then Some GetLastActiveWindow
  else None.

(** The object at [P] has the own property [q] under [key]. *)
Definition has_own (h : gmap loc JsObject) (P : loc) (key : string) (q : Property) : Prop :=
  ∃ oP, h !! P = Some oP ∧ own_property key (obj_props oP) = Some q.

(** The names of the own properties of the object at [P], in creation
    order. *)
Definition keys_at (h : gmap loc JsObject) (P : loc) : option (list string) :=
  (fun o => (obj_props o).*1) <$> h !! P.

(** The property names class evaluation gives the prototype object. *)
Definition Windows_prototype_keys : list string :=
  ["constructor"; "open_window"; "open_empty_window"; "open_existing_window";
   "send_to_focused"; "send_to_all"; "get_focused_window"; "get_last_active_window"].

(** What a caller can do with the module: import it, call an operation,
    try to modify an object. *)
Inductive Step : Type :=
| StepImport
| StepPerform (op : Operation)
| StepAttempt (m : Modification) (target : loc).

Section Callers.

Variable Host : Type.
Variable realm : Realm.
Variable primitive :
  string -> option JsValue -> gmap loc JsObject -> Host ->
  JsValue * gmap loc JsObject * Host.

(** Operations one after the other, each on the world the one before
    left; the results in the same order. *)
Fixpoint perform_all (ops : list Operation) : M Host (list JsValue) :=
  match ops with
  | [] => mret []
  | op :: rest =>
      r ← perform Host realm primitive op;
      rs ← perform_all rest;
      mret (r :: rs)
  end.

Definition step (s : Step) : M Host unit :=
  match s with
  | StepImport => _ ← import_WindowsService Host realm; mret tt
  | StepPerform op => _ ← perform Host realm primitive op; mret tt
  | StepAttempt m target => _ ← attempt Host m target; mret tt
  end.

Fixpoint run_steps (steps : list Step) : M Host unit :=
  match steps with
  | [] => mret tt
  | s :: rest => _ ← step s; run_steps rest
  end.

End Callers.

(** ** A sample realm, world and host

    Concrete inputs on which the definitions can be run.  The host state
    counts the requests received; the primitive answers every request with
    a new promise in a chosen state. *)

Definition sample_realm : Realm :=
  {| Object_prototype := 1; Function_prototype := 2; Array_prototype := 3 |}.

Definition sample_heap : gmap loc JsObject :=
  {[ 1%positive := {| obj_class := OrdinaryObject; obj_proto := None;
                      obj_extensible := true; obj_props := [] |};
     2%positive := {| obj_class := OrdinaryObject; obj_proto := Some 1%positive;
                      obj_extensible := true; obj_props := [] |};
     3%positive := {| obj_class := OrdinaryObject; obj_proto := Some 1%positive;
                      obj_extensible := true; obj_props := [] |} ]}.

Definition sample_world : World nat :=
  {| heap := sample_heap; host := 0; log := []; module_default := None |}.

Definition promise_object (state : PromiseState) : JsObject :=
  {| obj_class := PromiseObject state; obj_proto := None;
     obj_extensible := true; obj_props := [] |}.

Definition settling_primitive (answer : PromiseState)
  : string -> option JsValue -> gmap loc JsObject -> nat -> JsValue * gmap loc JsObject * nat :=
  fun cmd args h received =>
    let p := fresh (dom h) in
    (JObject p, <[p := promise_object answer]> h, S received).

Definition sample_configuration : OpenConfiguration :=
  {| label := Present "main";
     url := IsNull;
     uris_to_open := Present [ {| folder_uri := Present "file:///home/user/project";
                                  file_uri := IsUndefined |} ];
     context_window_label := IsUndefined;
     context := Dock;
     force_new_window := true;
     force_new_tabbed_window := false;
     force_reuse_window := false;
     force_empty_window := false;
     prefer_new_window := false;
     initial_startup := true;
     diff_mode := false |}.

(** The sample world once the caller has built [sample_configuration]. *)
Definition configured : JsValue * World nat :=
  new_OpenConfiguration nat sample_realm sample_configuration sample_world.

Definition sample_options : WindowOptions :=
  {| tauri_options :=
       {| window_label := Present "main"; window_url := IsUndefined;
          always_on_top := IsNull; center := true; decorations := Present true;
          focus := true; fullscreen := IsUndefined;
          inner_size := Present {| width := number_of_Z 800; height := number_of_Z 600 |};
          max_inner_size := IsNull; maximized := IsUndefined; min_inner_size := IsNull;
          position := IsUndefined; resizable := Present true; skip_taskbar := IsNull;
          theme := Present Dark; title := Present "Untitled"; transparent := IsNull;
          visible := Present true |};
     options_initial_startup := false;
     options_force_new_window := false;
     options_force_new_tabbed_window := false;
     options_force_reuse_window := false;
     options_force_empty_window := true;
     empty_window_backup_info := IsNull;
     files_to_open :=
       {| files_to_open_or_create := ["notes.txt"]; files_to_diff := [];
          files_to_wait := [] |};
     window_to_use := IsUndefined;
     folder := IsNull |}.

(** The sample world once the caller has built [sample_options] too. *)
Definition configured_with_options : JsValue * World nat :=
  new_WindowOptions nat sample_realm sample_options configured.2.

(** A host that rejects every request with the same error value, and one
    that answers every request with [null]. *)
Definition host_unreachable : JsValue := JString "host unreachable".

Definition rejecting_primitive := settling_primitive (Rejected host_unreachable).

Definition null_primitive := settling_primitive (Fulfilled JNull).

Definition focused_window_null : JsValue * World nat :=
  get_focused_window nat null_primitive sample_world.

(** The sample world once the module has been imported. *)
Definition imported : JsValue * World nat :=
  import_WindowsService nat sample_realm configured.2.

(** A world with the object prototype as a standard realm has it: with
    the accessor [__proto__], not enumerable and configurable, and a
    [constructor] property.  The built-in functions of the realm have no
    body in [Code]: ordinary objects stand in for them, and nothing below
    calls one. *)
Definition standard_heap : gmap loc JsObject :=
  {[ 1%positive := {| obj_class := ObjectPrototypeObject (Accessor false true);
                      obj_proto := None; obj_extensible := true;
                      obj_props := [("constructor", hidden_property (JObject 4))] |};
     2%positive := {| obj_class := OrdinaryObject; obj_proto := Some 1%positive;
                      obj_extensible := true; obj_props := [] |};
     3%positive := {| obj_class := OrdinaryObject; obj_proto := Some 1%positive;
                      obj_extensible := true; obj_props := [] |};
     4%positive := {| obj_class := OrdinaryObject; obj_proto := Some 2%positive;
                      obj_extensible := true;
                      obj_props := [("prototype", fixed_property (JObject 1))] |} ]}.

Definition standard_world : World nat :=
  {| heap := standard_heap; host := 0; log := []; module_default := None |}.


(** * Properties *)

Section ClientProperties.

Variable Host : Type.
Variable realm : Realm.
Variable primitive :
  string -> option JsValue -> gmap loc JsObject -> Host ->
  JsValue * gmap loc JsObject * Host.

Local Abbreviation perform := (perform Host realm primitive).

Lemma fresh_not_live (h : gmap loc JsObject) : h !! fresh (dom h) = None.
Proof. apply not_elem_of_dom, is_fresh. Qed.

(** Every operation is one call of the primitive: with the command and
    the arguments of the interface table, on the heap extended with the
    argument record only; what the primitive answers is the result. *)
Lemma perform_unfold (op : Operation) (w : World Host) :
  perform op w =
    let call heap_handed :=
      let reply :=
        primitive (command_of op) (expected_argument op (heap w)) heap_handed (host w) in
      (reply.1.1,
       {| heap := reply.1.2; host := reply.2;
          log := log w ++ [mkRemoteCall (command_of op)
                             (expected_argument op (heap w)) heap_handed reply.1.1];
          module_default := module_default w |}) in
    call (expected_heap realm op (heap w)).
Proof.
  destruct op; cbn;
    unfold open_window, open_empty_window, open_existing_window, send_to_focused,
      send_to_all, get_focused_window, get_last_active_window,
      object_literal, alloc, invoke, mbind, M_bind, mret, M_ret; cbn;
    destruct (primitive _ _ _ _) as [[p h'] s']; reflexivity.
Qed.

Lemma expected_record (op : Operation) (h : gmap loc JsObject) :
  expected_argument op h ≫= record_of (expected_heap realm op h) = arguments_of op.
Proof.
  unfold expected_argument, expected_heap.
  destruct (arguments_of op) as [fields|]; cbn; [|done].
  rewrite lookup_insert_eq. cbn. f_equal.
  induction fields as [|[k v] fields IH]; cbn; [done|]. by rewrite IH.
Qed.

Lemma expected_heap_frame (op : Operation) (h : gmap loc JsObject) (l : loc) (o : JsObject) :
  h !! l = Some o -> expected_heap realm op h !! l = Some o.
Proof.
  intros Hl. unfold expected_heap. destruct (arguments_of op); [|done].
  rewrite lookup_insert_ne; [done|]. intros <-. by rewrite fresh_not_live in Hl.
Qed.

(** The one remote call of an operation, as the log shows it. *)
Lemma perform_call (op : Operation) (w : World Host) :
  ∃ call : RemoteCall,
    log (perform op w).2 = log w ++ [call]
    ∧ call_cmd call = command_of op
    ∧ call_args call = expected_argument op (heap w)
    ∧ call_heap call = expected_heap realm op (heap w)
    ∧ call_record call = arguments_of op
    ∧ (perform op w).1 = call_promise call
    ∧ primitive (call_cmd call) (call_args call) (call_heap call) (host w)
      = (call_promise call, heap (perform op w).2, host (perform op w).2)
    ∧ module_default (perform op w).2 = module_default w.
Proof.
  rewrite perform_unfold. cbv beta zeta.
  destruct (primitive _ _ _ _) as [[p h'] s'] eqn:Hprim. cbn.
  eexists. split; [reflexivity|]. cbn.
  repeat split; [apply expected_record | exact Hprim].
Qed.

Local Ltac one_call op w :=
  destruct (perform_call op w)
    as (call & Hlog & Hcmd & Hargs & Hheap & Hrec & Hres & Hprim & Hmod);
  exists call.

(** C1. For every configuration value (an [OpenConfiguration] in
    particular), in every world and whatever the primitive does,
    [open_window] appends exactly one entry to the log of remote calls:
    its command name is ["plugin:windows|open_window"] and its argument is
    a new record whose only property is [configuration], holding the
    given value. *)
Theorem open_window_one_call (configuration : JsValue) (w : World Host) :
  ∃ call : RemoteCall,
    log (open_window Host realm primitive configuration w).2 = log w ++ [call]
    ∧ call_cmd call = "plugin:windows|open_window"
    ∧ call_record call = Some [("configuration", configuration)]
    ∧ ∃ l, call_args call = Some (JObject l) ∧ heap w !! l = None.
Proof.
  one_call (OpenWindow configuration) w. repeat split; try done.
  eexists. split; [exact Hargs|]. apply fresh_not_live.
Qed.

(** C3. For every pair of inputs, the argument record [open_empty_window]
    hands to the remote call has exactly two properties, under the two
    different keys ["configuration"] and ["options"], holding the given
    configuration and the given options themselves. *)
Theorem open_empty_window_two_arguments (configuration options : JsValue) (w : World Host) :
  ∃ call : RemoteCall,
    log (open_empty_window Host realm primitive configuration options w).2 = log w ++ [call]
    ∧ call_cmd call = "plugin:windows|open_empty_window"
    ∧ call_record call = Some [("configuration", configuration); ("options", options)]
    ∧ "configuration" ≠ "options".
Proof.
  one_call (OpenEmptyWindow configuration options) w. repeat split; done.
Qed.

(** C4. For every input, the argument record of [open_existing_window]
    holds the identifier of the window to reuse under the key
    ["windowToUse"], after the configuration; the record has no property
    under any other key, ["window_to_use"] included. *)
Theorem open_existing_window_key (configuration windowToUse : JsValue) (w : World Host) :
  ∃ (call : RemoteCall) (record : list (string * JsValue)),
    log (open_existing_window Host realm primitive configuration windowToUse w).2
      = log w ++ [call]
    ∧ call_cmd call = "plugin:windows|open_existing_window"
    ∧ call_record call = Some record
    ∧ record = [("configuration", configuration); ("windowToUse", windowToUse)]
    ∧ ("window_to_use" ∉ record.*1)
    ∧ ∀ key, key ∈ record.*1 -> key ≠ "configuration" -> key = "windowToUse".
Proof.
  one_call (OpenExistingWindow configuration windowToUse) w.
  eexists. split; [exact Hlog|]. split; [exact Hcmd|]. split; [exact Hrec|].
  split; [reflexivity|]. cbn. split.
  - rewrite !elem_of_cons, elem_of_nil. intros [?|[?|[]]]; discriminate.
  - intros key. rewrite !elem_of_cons, elem_of_nil. intros [->|[->|[]]]; done.
Qed.

(** C5. For every channel string and every payload value, of whatever
    kind, [send_to_focused] and [send_to_all] hand the payload itself to
    the remote call, under the keys ["channel"] and ["payload"]; every
    object that was live before the call (among them whatever the payload
    refers to) is handed over as it was. *)
Theorem send_forwards_payload (channel : string) (payload : JsValue) (w : World Host) :
  (∃ call : RemoteCall,
     log (send_to_focused Host realm primitive (JString channel) payload w).2
       = log w ++ [call]
     ∧ call_cmd call = "plugin:windows|send_to_focused"
     ∧ call_record call = Some [("channel", JString channel); ("payload", payload)]
     ∧ ∀ l o, heap w !! l = Some o -> call_heap call !! l = Some o)
  ∧ (∃ call : RemoteCall,
     log (send_to_all Host realm primitive (JString channel) payload w).2
       = log w ++ [call]
     ∧ call_cmd call = "plugin:windows|send_to_all"
     ∧ call_record call = Some [("channel", JString channel); ("payload", payload)]
     ∧ ∀ l o, heap w !! l = Some o -> call_heap call !! l = Some o).
Proof.
  split.
  - one_call (SendToFocused (JString channel) payload) w. repeat split; try done.
    intros l o. rewrite Hheap. apply expected_heap_frame.
  - one_call (SendToAll (JString channel) payload) w. repeat split; try done.
    intros l o. rewrite Hheap. apply expected_heap_frame.
Qed.

(** C2. For every operation and every error value: in whatever heap the
    promise the primitive returned for the call is rejected with that
    error (the heap right after the call or any later one), the promise
    the operation returned is rejected with the very same error value.
    The operation returns the primitive's promise itself. *)
Theorem rejection_passes_through (op : Operation) (w : World Host)
    (call : RemoteCall) (later : gmap loc JsObject) (error : JsValue) :
  last (log (perform op w).2) = Some call ->
  promise_state later (call_promise call) = Some (Rejected error) ->
  promise_state later (perform op w).1 = Some (Rejected error)
  ∧ (perform op w).1 = call_promise call.
Proof.
  destruct (perform_call op w)
    as (call' & Hlog & _ & _ & _ & _ & Hres & _ & _).
  rewrite Hlog, last_snoc. intros [= <-] Hrejected. rewrite Hres. done.
Qed.

(** C6, amended.  [get_focused_window] and [get_last_active_window] each
    issue one remote call, with the command name of the operation and no
    argument at all, and return the promise of the primitive itself: in
    whatever heap that promise is fulfilled with a value, the returned
    promise is fulfilled with that same value, so with a string whenever
    the host replied with a string.  The client does not check the
    reply. *)
Theorem get_window_no_arguments (w : World Host) :
  (∃ call : RemoteCall,
     log (get_focused_window Host primitive w).2 = log w ++ [call]
     ∧ call_cmd call = "plugin:windows|get_focused_window"
     ∧ call_args call = None
     ∧ ∀ later value,
         promise_state later (call_promise call) = Some (Fulfilled value) ->
         promise_state later (get_focused_window Host primitive w).1
           = Some (Fulfilled value)
         ∧ (is_string value = true -> ∃ s, value = JString s))
  ∧ (∃ call : RemoteCall,
     log (get_last_active_window Host primitive w).2 = log w ++ [call]
     ∧ call_cmd call = "plugin:windows|get_last_active_window"
     ∧ call_args call = None
     ∧ ∀ later value,
         promise_state later (call_promise call) = Some (Fulfilled value) ->
         promise_state later (get_last_active_window Host primitive w).1
           = Some (Fulfilled value)
         ∧ (is_string value = true -> ∃ s, value = JString s)).
Proof.
  split.
  - one_call GetFocusedWindow w. repeat split; try done.
    + cbn in Hres. by rewrite Hres.
    + destruct value; try discriminate. by eexists.
  - one_call GetLastActiveWindow w. repeat split; try done.
    + cbn in Hres. by rewrite Hres.
    + destruct value; try discriminate. by eexists.
Qed.

(** C8. Every operation appends exactly one entry to the log of remote
    calls, with the command and the arguments of the interface table as
    given by the caller; its result is the promise of that call, and the
    world it leaves is the one the primitive left.  Nothing follows the
    call: when the promise is rejected the log still has that one new
    entry, and the rejection is what the caller gets. *)
Theorem one_remote_call_per_operation (op : Operation) (w : World Host) :
  ∃ call : RemoteCall,
    log (perform op w).2 = log w ++ [call]
    ∧ call_cmd call = command_of op
    ∧ call_record call = arguments_of op
    ∧ (perform op w).1 = call_promise call
    ∧ primitive (call_cmd call) (call_args call) (call_heap call) (host w)
      = (call_promise call, heap (perform op w).2, host (perform op w).2)
    ∧ ∀ error,
        promise_state (heap (perform op w).2) (call_promise call) = Some (Rejected error) ->
        length (log (perform op w).2) = S (length (log w))
        ∧ promise_state (heap (perform op w).2) (perform op w).1 = Some (Rejected error).
Proof.
  one_call op w. repeat split; try done.
  - rewrite Hlog, length_app. cbn. lia.
  - by rewrite Hres.
Qed.

(** C9. For every operation and every argument: each object that was
    live before the call is handed to the primitive as it was; the only
    object the client creates is the argument record of the call; once
    the primitive has answered the client touches nothing, and the
    binding of the module is as before.  So when the primitive leaves
    live objects alone, every object that was live before the call is the
    same after it: no field of an entity passed in has changed, and no
    object of the client has come to refer to it. *)
Theorem arguments_left_alone (op : Operation) (w : World Host) :
  ∃ call : RemoteCall,
    log (perform op w).2 = log w ++ [call]
    ∧ (∀ l o, heap w !! l = Some o -> call_heap call !! l = Some o)
    ∧ (∀ l, is_Some (call_heap call !! l) ->
            is_Some (heap w !! l) ∨ call_args call = Some (JObject l))
    ∧ primitive (call_cmd call) (call_args call) (call_heap call) (host w)
      = (call_promise call, heap (perform op w).2, host (perform op w).2)
    ∧ module_default (perform op w).2 = module_default w
    ∧ ((∀ cmd args h s l o,
          h !! l = Some o -> (primitive cmd args h s).1.2 !! l = Some o) ->
       ∀ l o, heap w !! l = Some o -> heap (perform op w).2 !! l = Some o).
Proof.
  one_call op w. repeat split; try done.
  - intros l o. rewrite Hheap. apply expected_heap_frame.
  - intros l. rewrite Hheap, Hargs. unfold expected_heap, expected_argument.
    destruct (arguments_of op); [|by left].
    destruct (decide (l = fresh (dom (heap w)))) as [->|Hne]; [by right|].
    rewrite lookup_insert_ne by done. by left.
  - intros Hframe l o Hl.
    specialize (Hframe (call_cmd call) (call_args call) (call_heap call) (host w) l o).
    rewrite Hprim in Hframe. apply Hframe. rewrite Hheap. by apply expected_heap_frame.
Qed.

End ClientProperties.

(** ** Determinism *)

Section Determinism.

Variables Host1 Host2 : Type.
Variables realm1 realm2 : Realm.
Variable primitive1 :
  string -> option JsValue -> gmap loc JsObject -> Host1 ->
  JsValue * gmap loc JsObject * Host1.
Variable primitive2 :
  string -> option JsValue -> gmap loc JsObject -> Host2 ->
  JsValue * gmap loc JsObject * Host2.

(** C10. The request of an operation is a function of its arguments
    alone.  Take the same operation with the same arguments in any two
    worlds, whatever their heaps, their hosts, their logs of earlier
    calls and the state of the module, and with any two primitives: the
    two requests carry the same command name and argument records with
    the same properties.  Construction plays no part: the constructor
    leaves the world as it found it. *)
Theorem request_determined_by_arguments (op : Operation)
    (w1 : World Host1) (w2 : World Host2) (this : JsValue) :
  (∃ call1 call2 : RemoteCall,
     log (perform Host1 realm1 primitive1 op w1).2 = log w1 ++ [call1]
     ∧ log (perform Host2 realm2 primitive2 op w2).2 = log w2 ++ [call2]
     ∧ call_cmd call1 = call_cmd call2
     ∧ call_record call1 = call_record call2
     ∧ (call_args call1 = None <-> call_args call2 = None))
  ∧ constructor Host1 this w1 = (tt, w1).
Proof.
  split; [|done].
  destruct (perform_call Host1 realm1 primitive1 op w1)
    as (call1 & Hlog1 & Hcmd1 & Hargs1 & _ & Hrec1 & _).
  destruct (perform_call Host2 realm2 primitive2 op w2)
    as (call2 & Hlog2 & Hcmd2 & Hargs2 & _ & Hrec2 & _).
  exists call1, call2. repeat split; try done; try congruence.
  all: rewrite Hargs1, Hargs2; unfold expected_argument;
    destruct (arguments_of op); done.
Qed.

End Determinism.

(** ** Frozen objects *)

Section Frozen.

Implicit Types (h : gmap loc JsObject) (l : loc) (o : JsObject) (key : string).

Lemma own_property_elem key (ps : list (string * Property)) (q : Property) :
  own_property key ps = Some q -> (key, q) ∈ ps.
Proof.
  induction ps as [|[k p] ps IH]; cbn; [done|].
  destruct (String.eqb_spec k key) as [->|_].
  - intros [= ->]. apply elem_of_cons. by left.
  - intros Hq. apply elem_of_cons. right. by apply IH.
Qed.

Lemma put_property_same key (ps : list (string * Property)) (q : Property) :
  own_property key ps = Some q -> put_property key q ps = ps.
Proof.
  induction ps as [|[k p] ps IH]; cbn; [done|].
  destruct (String.eqb_spec k key) as [->|_].
  - by intros [= ->].
  - intros Hq. by rewrite IH.
Qed.

Lemma frozen_not_extensible o : is_frozen o = true -> obj_extensible o = false.
Proof.
  unfold is_frozen. intros [[? _]%andb_prop _]%andb_prop.
  by destruct (obj_extensible o).
Qed.

Lemma frozen_own_property o key (q : Property) :
  is_frozen o = true -> own_property key (obj_props o) = Some q ->
  prop_writable q = false ∧ prop_configurable q = false.
Proof.
  unfold is_frozen. intros [[_ Hall]%andb_prop _]%andb_prop Hq%own_property_elem.
  rewrite forallb_forall in Hall. apply list_elem_of_In, Hall in Hq. cbn in Hq.
  apply andb_prop in Hq as [Hw Hc].
  by destruct (prop_writable q), (prop_configurable q).
Qed.

Lemma freeze_object_frozen o : is_frozen (freeze_object o) = true.
Proof.
  unfold is_frozen. cbn. apply andb_true_intro. split.
  - apply forallb_forall. intros [k p] Hin.
    apply list_elem_of_In, list_elem_of_fmap in Hin as ([k' p'] & [= -> ->] & _). done.
  - by destruct (obj_class o) as [| | | |[|e c]].
Qed.

Lemma frozen_accessor o key (e c : bool) :
  is_frozen o = true -> own_proto_accessor o key = Some (e, c) -> c = false.
Proof.
  unfold is_frozen, own_proto_accessor. intros [_ Hfixed]%andb_prop.
  destruct (String.eqb key "__proto__"); [|done].
  destruct (own_property key (obj_props o)); [done|].
  destruct (obj_class o) as [| | | |[|e' c']]; try done.
  intros [= <- <-]. by destruct c'.
Qed.

(** What a descriptor leaves of a frozen property, when it is accepted
    at all, is the property itself. *)
Lemma apply_descriptor_frozen (d : Descriptor) (q : Property) :
  prop_writable q = false -> prop_configurable q = false ->
  descriptor_allowed d q = true -> apply_descriptor d q = q.
Proof.
  destruct q as [v wr en co], d as [dv dw de dc]. cbn. intros -> ->.
  unfold descriptor_allowed, apply_descriptor. cbn.
  rewrite !andb_true_iff, !negb_true_iff, !bool_decide_eq_true, !bool_decide_eq_false.
  intros [[Hc He] [Hw Hv]]. f_equal.
  - destruct Hv as [->| ->]; done.
  - destruct dw as [[]|]; done.
  - destruct He as [->| ->]; done.
  - destruct dc as [[]|]; done.
Qed.

Lemma find_property_own fuel h l o key (q : Property) :
  h !! l = Some o -> own_property key (obj_props o) = Some q ->
  find_property (S fuel) h l key = Some q.
Proof. intros Hl Hq. cbn. by rewrite Hl, Hq. Qed.

Lemma ordinary_set_frozen h l o key (v : JsValue) :
  h !! l = Some o -> is_frozen o = true -> ordinary_set h l key v = (false, h).
Proof.
  intros Hl Hfrozen. unfold ordinary_set. rewrite Hl.
  destruct (own_property key (obj_props o)) as [q|] eqn:Hq.
  - rewrite (find_property_own _ _ _ _ _ _ Hl Hq). cbn.
    destruct (frozen_own_property _ _ _ Hfrozen Hq) as [-> _]. done.
  - rewrite (frozen_not_extensible _ Hfrozen). by destruct (negb _).
Qed.

Lemma ordinary_delete_frozen h l o key :
  h !! l = Some o -> is_frozen o = true -> (ordinary_delete h l key).2 = h.
Proof.
  intros Hl Hfrozen. unfold ordinary_delete. rewrite Hl.
  destruct (own_property key (obj_props o)) as [q|] eqn:Hq; [|done].
  destruct (frozen_own_property _ _ _ Hfrozen Hq) as [_ ->]. done.
Qed.

Lemma ordinary_define_own_property_frozen h l o key (d : Descriptor) :
  h !! l = Some o -> is_frozen o = true ->
  (ordinary_define_own_property h l key d).2 = h.
Proof.
  intros Hl Hfrozen. unfold ordinary_define_own_property. rewrite Hl.
  destruct (own_property key (obj_props o)) as [q|] eqn:Hq.
  - destruct (descriptor_allowed d q) eqn:Hallowed; [|done]. cbn.
    destruct (frozen_own_property _ _ _ Hfrozen Hq) as [Hw Hc].
    rewrite (apply_descriptor_frozen _ _ Hw Hc Hallowed), (put_property_same _ _ _ Hq).
    apply insert_id. rewrite Hl. by destruct o.
  - by rewrite (frozen_not_extensible _ Hfrozen).
Qed.

Lemma ordinary_set_prototype_of_frozen h l o (proto : option loc) :
  h !! l = Some o -> is_frozen o = true ->
  (ordinary_set_prototype_of h l proto).2 = h.
Proof.
  intros Hl Hfrozen. unfold ordinary_set_prototype_of. rewrite Hl.
  case_bool_decide; [done|]. by rewrite (frozen_not_extensible _ Hfrozen).
Qed.

Lemma set_prototype_of_frozen h l o (proto : option loc) :
  h !! l = Some o -> is_frozen o = true ->
  set_prototype_of h l proto = (bool_decide (proto = obj_proto o), h).
Proof.
  intros Hl Hfrozen. pose proof (frozen_not_extensible _ Hfrozen) as Hext.
  unfold set_prototype_of. rewrite Hl.
  destruct o as [cls current ext props]. cbn in Hext. subst ext.
  destruct cls; try done.
  all: unfold ordinary_set_prototype_of; rewrite Hl; cbn; by case_bool_decide.
Qed.

Lemma proto_setter_frozen h l o (v : JsValue) :
  h !! l = Some o -> is_frozen o = true ->
  proto_setter h l v
  = (match proto_of_value v with
     | Some p => if bool_decide (p = obj_proto o) then Normal v else ThrowTypeError
     | None => Normal v
     end, h).
Proof.
  intros Hl Hfrozen. unfold proto_setter.
  destruct (proto_of_value v) as [p|]; [|done].
  by rewrite (set_prototype_of_frozen _ _ _ p Hl Hfrozen).
Qed.

Lemma delete_property_frozen h l o key :
  h !! l = Some o -> is_frozen o = true -> (delete_property h l key).2 = h.
Proof.
  intros Hl Hfrozen. unfold delete_property. rewrite Hl.
  destruct (own_proto_accessor o key) as [[e c]|] eqn:Haccessor.
  - by rewrite (frozen_accessor _ _ _ _ Hfrozen Haccessor).
  - by apply ordinary_delete_frozen with (o := o).
Qed.

Lemma define_own_property_frozen h l o key (d : Descriptor) :
  h !! l = Some o -> is_frozen o = true -> (define_own_property h l key d).2 = h.
Proof.
  intros Hl Hfrozen. unfold define_own_property. rewrite Hl.
  destruct (own_proto_accessor o key) as [[e c]|] eqn:Haccessor.
  - by rewrite (frozen_accessor _ _ _ _ Hfrozen Haccessor).
  - by apply ordinary_define_own_property_frozen with (o := o).
Qed.

(** [define_in] is [[DefineOwnProperty]] of an ordinary object. *)
Lemma define_in_ordinary h l o key (d : Descriptor) :
  h !! l = Some o ->
  ordinary_define_own_property h l key d
  = ((define_in o key d).1,
     if (define_in o key d).1 then <[l := (define_in o key d).2]> h else h).
Proof.
  intros Hl. unfold ordinary_define_own_property, define_in. rewrite Hl.
  destruct (own_property key (obj_props o)) as [q|].
  - by destruct (descriptor_allowed d q).
  - by destruct (obj_extensible o).
Qed.

Lemma define_in_frozen o key (d : Descriptor) :
  is_frozen o = true -> (define_in o key d).2 = o.
Proof.
  intros Hfrozen. unfold define_in.
  destruct (own_property key (obj_props o)) as [q|] eqn:Hq.
  - destruct (descriptor_allowed d q) eqn:Hallowed; [|done]. cbn.
    destruct (frozen_own_property _ _ _ Hfrozen Hq) as [Hw Hc].
    rewrite (apply_descriptor_frozen _ _ Hw Hc Hallowed), (put_property_same _ _ _ Hq).
    by destruct o.
  - by rewrite (frozen_not_extensible _ Hfrozen).
Qed.

Lemma define_in_frozen_absent o key (d : Descriptor) :
  is_frozen o = true -> own_property key (obj_props o) = None ->
  define_in o key d = (false, o).
Proof.
  intros Hfrozen Hq. unfold define_in. by rewrite Hq, (frozen_not_extensible _ Hfrozen).
Qed.

Lemma array_length_own o (n : N) (q : Property) :
  array_length o = Some (n, q) -> own_property "length" (obj_props o) = Some q.
Proof.
  unfold array_length. destruct (own_property "length" (obj_props o)) as [q'|]; [|done].
  cbn. destruct (prop_value q'); try done.
  destruct (uint32_of_number _); [|done]. cbn. by intros [= _ ->].
Qed.

Lemma array_set_length_frozen o (d : Descriptor) :
  is_frozen o = true -> (array_set_length o d).2 = o.
Proof.
  intros Hfrozen. unfold array_set_length.
  pose proof (define_in_frozen o "length" d Hfrozen) as Hplain.
  destruct (desc_value d) as [v|]; [|by destruct (define_in o "length" d)].
  destruct (array_length o) as [[old q]|] eqn:Hlength;
    [|by destruct (define_in o "length" d)].
  destruct (to_length v) as [n| |]; [|done..].
  destruct (old <=? n)%N.
  - match goal with
    | |- context [define_in o "length" ?d'] =>
        pose proof (define_in_frozen o "length" d' Hfrozen) as Hsame;
        by destruct (define_in o "length" d')
    end.
  - apply array_length_own in Hlength.
    by destruct (frozen_own_property _ _ _ Hfrozen Hlength) as [-> _].
Qed.

Lemma array_define_frozen o key (d : Descriptor) :
  is_frozen o = true -> (array_define o key d).2 = o.
Proof.
  intros Hfrozen. unfold array_define.
  destruct (String.eqb key "length"); [by apply array_set_length_frozen|].
  pose proof (define_in_frozen o key d Hfrozen) as Hplain.
  destruct (array_index key) as [i|]; [|by destruct (define_in o key d)].
  destruct (array_length o) as [[len q]|] eqn:Hlength; [|by destruct (define_in o key d)].
  apply array_length_own in Hlength.
  destruct (frozen_own_property _ _ _ Hfrozen Hlength) as [-> _].
  destruct (len <=? i)%N; [done|]. cbn [negb andb].
  destruct (define_in o key d) as [ok o1]. cbn in Hplain. subst o1. by destruct ok.
Qed.

Lemma array_define_frozen_absent o key (d : Descriptor) :
  is_frozen o = true -> own_property key (obj_props o) = None ->
  array_define o key d = (Normal false, o).
Proof.
  intros Hfrozen Hq. unfold array_define.
  pose proof (define_in_frozen_absent o key d Hfrozen Hq) as Hplain.
  destruct (String.eqb_spec key "length") as [->|_].
  - unfold array_set_length, array_length. rewrite Hq. cbn. rewrite Hplain.
    by destruct (desc_value d).
  - destruct (array_index key) as [i|]; [|by rewrite Hplain].
    destruct (array_length o) as [[len q]|] eqn:Hlength; [|by rewrite Hplain].
    apply array_length_own in Hlength.
    destruct (frozen_own_property _ _ _ Hfrozen Hlength) as [-> _].
    destruct (len <=? i)%N; [done|]. by rewrite Hplain.
Qed.

Lemma array_define_own_property_frozen h l o key (d : Descriptor) :
  h !! l = Some o -> is_frozen o = true -> (array_define_own_property h l key d).2 = h.
Proof.
  intros Hl Hfrozen. unfold array_define_own_property. rewrite Hl.
  pose proof (array_define_frozen o key d Hfrozen) as Hsame.
  destruct (array_define o key d) as [answer o']. cbn in *. subst o'.
  by apply insert_id.
Qed.

Lemma array_set_frozen h l o key (v : JsValue) :
  h !! l = Some o -> is_frozen o = true -> array_set h l key v = (Normal false, h).
Proof.
  intros Hl Hfrozen. unfold array_set. rewrite Hl.
  destruct (own_property key (obj_props o)) as [q|] eqn:Hq.
  - rewrite (find_property_own _ _ _ _ _ _ Hl Hq). cbn.
    destruct (frozen_own_property _ _ _ Hfrozen Hq) as [-> _]. done.
  - destruct (negb _); [done|]. unfold array_define_own_property.
    rewrite Hl, (array_define_frozen_absent _ _ _ Hfrozen Hq). by rewrite insert_id.
Qed.

End Frozen.

(** ** The exported instance *)

Section ServiceProperties.

Variable Host : Type.
Variable realm : Realm.
Variable primitive :
  string -> option JsValue -> gmap loc JsObject -> Host ->
  JsValue * gmap loc JsObject * Host.

Lemma set_heap_same (w : World Host) : set_heap (heap w) w = w.
Proof. by destruct w. Qed.

(** No attempt changes anything in a world where its target is frozen. *)
Lemma attempt_frozen (m : Modification) (l : loc) (o : JsObject) (w : World Host) :
  heap w !! l = Some o -> is_frozen o = true -> (attempt Host m l w).2 = w.
Proof.
  intros Hl Hfrozen. destruct m as [strict key v|strict key|key d|proto]; unfold attempt.
  - destruct (String.eqb key "__proto__" && finds_proto_accessor _ _ _).
    + rewrite (proto_setter_frozen _ _ _ v Hl Hfrozen). cbn. apply set_heap_same.
    + rewrite (array_set_frozen _ _ _ key v Hl Hfrozen),
        (ordinary_set_frozen _ _ _ _ _ Hl Hfrozen).
      destruct (is_array (heap w) l); cbn; apply set_heap_same.
  - pose proof (delete_property_frozen _ _ _ key Hl Hfrozen) as Heq.
    destruct (delete_property _ _ _) as [ok h']. cbn in *. subst h'. apply set_heap_same.
  - pose proof (define_own_property_frozen _ _ _ key d Hl Hfrozen) as Heq.
    pose proof (array_define_own_property_frozen _ _ _ key d Hl Hfrozen) as Harray.
    destruct (define_own_property _ _ _ _) as [ok h'].
    destruct (array_define_own_property _ _ _ _) as [answer h'']. cbn in *. subst h' h''.
    destruct (is_array (heap w) l); apply set_heap_same.
  - rewrite (set_prototype_of_frozen _ _ _ proto Hl Hfrozen). cbn. apply set_heap_same.
Qed.

(** An assignment to a property of a frozen object throws in strict code
    and is ignored in sloppy code; save that an assignment to [__proto__]
    that finds the accessor is decided by the value, whatever the mode. *)
Lemma assign_frozen_outcome (strict : bool) (key : string) (v : JsValue)
    (l : loc) (o : JsObject) (w : World Host) :
  heap w !! l = Some o -> is_frozen o = true ->
  (attempt Host (Assign strict key v) l w).1
    = if String.eqb key "__proto__"
         && finds_proto_accessor (S (size (heap w))) (heap w) l
      then match proto_of_value v with
           | Some p => if bool_decide (p = obj_proto o) then Normal v else ThrowTypeError
           | None => Normal v
           end
      else if strict then ThrowTypeError else Normal v.
Proof.
  intros Hl Hfrozen. unfold attempt.
  destruct (String.eqb key "__proto__" && finds_proto_accessor _ _ _).
  - by rewrite (proto_setter_frozen _ _ _ v Hl Hfrozen).
  - rewrite (array_set_frozen _ _ _ key v Hl Hfrozen),
      (ordinary_set_frozen _ _ _ _ _ Hl Hfrozen).
    by destruct (is_array (heap w) l).
Qed.

Lemma Object_freeze_frozen (l : loc) (o : JsObject) (w : World Host) :
  heap w !! l = Some o ->
  (Object_freeze (JObject l) w).1 = JObject l
  ∧ frozen_in (heap (Object_freeze (JObject l) w).2) (JObject l).
Proof.
  intros Hl. split; [done|]. exists l, (freeze_object o). split; [done|].
  split; [|apply freeze_object_frozen].
  unfold Object_freeze, modify_object, mbind, M_bind, mret, M_ret. cbn.
  by rewrite lookup_alter_eq, Hl.
Qed.

Lemma new_Windows_live (F : loc) (w : World Host) :
  ∃ l o, (new_Windows Host realm F w).1 = JObject l
         ∧ heap (new_Windows Host realm F w).2 !! l = Some o.
Proof.
  unfold new_Windows, constructor, alloc, mbind, M_bind, mret, M_ret. cbn.
  eexists _, _. split; [reflexivity|]. apply lookup_insert_eq.
Qed.

(** The module body leaves its export frozen. *)
Lemma module_body_frozen (w : World Host) :
  frozen_in (heap (module_body Host realm w).2) (module_body Host realm w).1.
Proof.
  unfold module_body, mbind, M_bind, mret, M_ret.
  destruct (class_Windows Host realm w) as [F w1].
  destruct (new_Windows_live F w1) as (l & o & Hres & Hl).
  destruct (new_Windows Host realm F w1) as [service w2]. cbn in Hres, Hl. subst service.
  destruct (Object_freeze_frozen l o w2 Hl) as [_ Hfrozen].
  by destruct (Object_freeze (JObject l) w2) as [v w3].
Qed.

Lemma import_WindowsService_ready (w : World Host) :
  service_ready w ->
  let w1 := (import_WindowsService Host realm w).2 in
  let service := (import_WindowsService Host realm w).1 in
  module_default w1 = Some service ∧ frozen_in (heap w1) service.
Proof.
  intros Hready. unfold import_WindowsService.
  destruct (module_default w) as [v|] eqn:Hmod; cbn.
  - split; [done|]. by apply Hready.
  - pose proof (module_body_frozen w) as Hfrozen.
    destruct (module_body Host realm w) as [v w']. cbn in *. done.
Qed.

Lemma import_WindowsService_again (w : World Host) (v : JsValue) :
  module_default w = Some v -> import_WindowsService Host realm w = (v, w).
Proof. intros Hmod. unfold import_WindowsService. by rewrite Hmod. Qed.


End ServiceProperties.

(** ** Method lookup on the exported instance *)

Section Dispatch.

Variable Host : Type.
Variable realm : Realm.
Variable primitive :
  string -> option JsValue -> gmap loc JsObject -> Host ->
  JsValue * gmap loc JsObject * Host.

Implicit Types (h : gmap loc JsObject) (P F l : loc) (name key : string).

Lemma own_property_put_eq key (p : Property) (ps : list (string * Property)) :
  own_property key (put_property key p ps) = Some p.
Proof.
  induction ps as [|[k q] ps IH]; cbn.
  - by rewrite String.eqb_refl.
  - destruct (String.eqb_spec k key) as [->|Hne]; cbn.
    + by rewrite String.eqb_refl.
    + by destruct (String.eqb_spec k key).
Qed.

Lemma own_property_put_ne key name (p : Property) (ps : list (string * Property)) :
  name ≠ key -> own_property name (put_property key p ps) = own_property name ps.
Proof.
  intros Hne. induction ps as [|[k q] ps IH]; cbn.
  - by destruct (String.eqb_spec key name) as [->|_].
  - destruct (String.eqb_spec k key) as [->|Hk]; cbn.
    + by destruct (String.eqb_spec key name) as [->|_].
    + by rewrite IH.
Qed.

Lemma live_not_fresh h l : is_Some (h !! l) -> l ≠ fresh (dom h).
Proof. intros [o Hl] ->. by rewrite fresh_not_live in Hl. Qed.

Lemma fresh_not_live_ne h l : is_Some (h !! l) -> fresh (dom h) ≠ l.
Proof. intros [o Hl] <-. by rewrite fresh_not_live in Hl. Qed.

Lemma method_defined_live h P l name arity body :
  is_Some (h !! l) -> is_Some (method_defined realm P name arity body h !! l).
Proof.
  intros Hl. unfold method_defined.
  destruct (decide (P = l)) as [->|Hne].
  - rewrite lookup_alter_eq, lookup_insert_ne by (by apply fresh_not_live_ne).
    destruct Hl as [o ->]. by eexists.
  - rewrite lookup_alter_ne, lookup_insert_ne by (done || by apply fresh_not_live_ne).
    done.
Qed.

Lemma method_defined_other h P l name arity body :
  is_Some (h !! l) -> l ≠ P ->
  method_defined realm P name arity body h !! l = h !! l.
Proof.
  intros Hl Hne. unfold method_defined.
  rewrite lookup_alter_ne by done.
  rewrite lookup_insert_ne; [done|]. by apply fresh_not_live_ne.
Qed.

(** [define_method] installs its method ... *)
Lemma method_defined_new h P name arity body :
  is_Some (h !! P) -> has_method (method_defined realm P name arity body h) P name body.
Proof.
  intros [oP HP]. unfold method_defined, has_method.
  exists (add_property name (hidden_property (JObject (fresh (dom h)))) oP),
    (fresh (dom h)), (function_object realm name arity body []).
  assert (P ≠ fresh (dom h)) as Hne by (apply live_not_fresh; by eexists).
  split; [by rewrite lookup_alter_eq, lookup_insert_ne, HP|].
  split; [cbn; apply own_property_put_eq|].
  split; [|done].
  by rewrite lookup_alter_ne, lookup_insert_eq.
Qed.

(** ... and keeps the methods installed under other names. *)
Lemma method_defined_keeps h P name name' arity body body' :
  name' ≠ name -> has_method h P name' body' ->
  has_method (method_defined realm P name arity body h) P name' body'.
Proof.
  intros Hne (oP & f & fo & HP & Hown & Hf & Hclass). unfold method_defined, has_method.
  assert (P ≠ fresh (dom h)) as HneP by (apply live_not_fresh; by eexists).
  assert (f ≠ fresh (dom h)) as Hnef by (apply live_not_fresh; by eexists).
  exists (add_property name (hidden_property (JObject (fresh (dom h)))) oP), f.
  destruct (decide (f = P)) as [->|HfP].
  - eexists. split; [by rewrite lookup_alter_eq, lookup_insert_ne, HP|].
    split; [cbn; by rewrite own_property_put_ne|].
    split; [by rewrite lookup_alter_eq, lookup_insert_ne, HP|].
    cbn. congruence.
  - exists fo. split; [by rewrite lookup_alter_eq, lookup_insert_ne, HP|].
    split; [cbn; by rewrite own_property_put_ne|].
    split; [|done]. by rewrite lookup_alter_ne, lookup_insert_ne.
Qed.

Lemma method_defined_prototype h P F Q name arity body :
  F ≠ P -> has_prototype h F Q -> has_prototype (method_defined realm P name arity body h) F Q.
Proof.
  intros Hne (oF & HF & Hown). exists oF. split; [|done].
  rewrite method_defined_other; [done|by eexists|done].
Qed.

Lemma define_method_unfold P name arity body (w : World Host) :
  define_method Host realm P name arity body w
  = (tt, set_heap (method_defined realm P name arity body (heap w)) w).
Proof. reflexivity. Qed.

Lemma class_Windows_unfold (w : World Host) :
  class_Windows Host realm w
  = (class_constructor realm (heap w), set_heap (class_evaluated realm (heap w)) w).
Proof. reflexivity. Qed.

Lemma class_evaluated_prototype_live h :
  is_Some (class_evaluated realm h !! class_prototype h).
Proof.
  unfold class_evaluated. cbv zeta. repeat apply method_defined_live.
  rewrite lookup_alter_eq, lookup_insert_ne.
  - unfold class_declared. rewrite lookup_insert_eq. by eexists.
  - apply fresh_not_live_ne. unfold class_declared. rewrite lookup_insert_eq. by eexists.
Qed.

Lemma class_constructor_not_prototype h : class_constructor realm h ≠ class_prototype h.
Proof.
  apply fresh_not_live_ne. unfold class_declared. rewrite lookup_insert_eq. by eexists.
Qed.

Lemma class_evaluated_has_prototype h :
  has_prototype (class_evaluated realm h) (class_constructor realm h) (class_prototype h).
Proof.
  unfold class_evaluated. cbv zeta.
  repeat (apply method_defined_prototype; [apply class_constructor_not_prototype|]).
  eexists. split.
  - rewrite lookup_alter_ne by (intros Heq; by apply (class_constructor_not_prototype h)).
    apply lookup_insert_eq.
  - reflexivity.
Qed.

Lemma class_evaluated_has_method h (op : Operation) :
  has_method (class_evaluated realm h) (class_prototype h) (method_name op) (method_body op).
Proof.
  assert (is_Some ((alter (add_property "constructor"
                             (hidden_property (JObject (class_constructor realm h))))
                      (class_prototype h)
                      (<[class_constructor realm h :=
                           function_object realm "Windows" 0 Windows_constructor
                             [("prototype", fixed_property (JObject (class_prototype h)))]]>
                         (class_declared realm h))) !! class_prototype h)) as Hlive.
  { rewrite lookup_alter_eq, lookup_insert_ne by apply class_constructor_not_prototype.
    unfold class_declared. rewrite lookup_insert_eq. by eexists. }
  unfold class_evaluated. cbv zeta.
  destruct op; cbn [method_name method_body];
    repeat (apply method_defined_keeps; [discriminate|]);
    apply method_defined_new; repeat apply method_defined_live; exact Hlive.
Qed.

(** A name other than [__proto__] is read as a data property. *)
Lemma get_data h l key :
  String.eqb key "__proto__" = false ->
  get h l key = from_option prop_value JUndefined (find_property (S (size h)) h l key).
Proof. intros Hkey. unfold get. by rewrite Hkey. Qed.

(** An own data property named [__proto__] hides the accessor. *)
Lemma finds_proto_accessor_own fuel h l (o : JsObject) (q : Property) :
  h !! l = Some o -> own_property "__proto__" (obj_props o) = Some q ->
  finds_proto_accessor fuel h l = false.
Proof. intros Hl Hq. destruct fuel as [|fuel]; [done|]. cbn. by rewrite Hl, Hq. Qed.

(** No method of the class is named [__proto__]. *)
Lemma method_name_not_proto (op : Operation) :
  String.eqb (method_name op) "__proto__" = false.
Proof. by destruct op. Qed.

Lemma get_own h l (o : JsObject) key (q : Property) :
  h !! l = Some o -> own_property key (obj_props o) = Some q -> get h l key = prop_value q.
Proof.
  intros Hl Hq. unfold get. destruct (String.eqb_spec key "__proto__") as [->|Hkey].
  - rewrite (finds_proto_accessor_own _ _ _ _ _ Hl Hq). cbn [andb].
    by rewrite (find_property_own _ _ _ _ _ _ Hl Hq).
  - cbn [andb]. by rewrite (find_property_own _ _ _ _ _ _ Hl Hq).
Qed.

Lemma nonempty_size h l : is_Some (h !! l) -> ∃ n, size h = S n.
Proof.
  intros [o Hl]. destruct (size h) as [|n] eqn:Hsize; [|by eexists].
  apply map_size_empty_iff in Hsize. subst h. by rewrite lookup_empty in Hl.
Qed.

(** A method of the prototype is what [get] finds on an object that has
    no own property of that name. *)
Lemma get_method h l (o : JsObject) P key body :
  h !! l = Some o -> own_property key (obj_props o) = None -> obj_proto o = Some P ->
  has_method h P key body -> String.eqb key "__proto__" = false ->
  ∃ f fo, get h l key = JObject f ∧ h !! f = Some fo ∧ obj_class fo = FunctionObject body.
Proof.
  intros Hl Hown Hproto (oP & f & fo & HP & HownP & Hf & Hclass) Hkey.
  exists f, fo. split; [|done]. rewrite (get_data _ _ _ Hkey).
  destruct (nonempty_size h l) as [n ->]; [by eexists|].
  cbn. rewrite Hl, Hown, Hproto. cbn. by rewrite HP, HownP.
Qed.

Lemma module_body_unfold (w : World Host) :
  module_body Host realm w
  = (JObject (service_address realm (heap w)),
     set_heap (module_evaluated realm (heap w)) w).
Proof.
  unfold module_body, mbind, M_bind. rewrite class_Windows_unfold.
  unfold new_Windows. cbn [heap set_heap].
  destruct (class_evaluated_has_prototype (heap w)) as (oF & HF & Hown).
  rewrite (get_own _ _ _ _ _ HF Hown). reflexivity.
Qed.

Lemma module_evaluated_service h :
  module_evaluated realm h !! service_address realm h
  = Some {| obj_class := OrdinaryObject; obj_proto := Some (class_prototype h);
            obj_extensible := false; obj_props := [] |}.
Proof. unfold module_evaluated. by rewrite lookup_alter_eq, lookup_insert_eq. Qed.

Lemma module_evaluated_has_method h (op : Operation) :
  has_method (module_evaluated realm h) (class_prototype h) (method_name op) (method_body op).
Proof.
  destruct (class_evaluated_has_method h op) as (oP & f & fo & HP & Hown & Hf & Hclass).
  exists oP, f, fo. unfold module_evaluated, service_address.
  rewrite !lookup_alter_ne, !lookup_insert_ne by (apply fresh_not_live_ne; by eexists).
  done.
Qed.

Lemma apply_code_perform (op : Operation) (this : JsValue) (w : World Host) :
  apply_code Host realm primitive (method_body op) this (method_arguments op) w
  = (Normal (perform Host realm primitive op w).1, (perform Host realm primitive op w).2).
Proof.
  destruct op; cbn; unfold mbind, M_bind, mret, M_ret;
    match goal with |- context [let '(_, _) := ?run in _] => by destruct run end.
Qed.

(** Right after the module is evaluated, calling a method on the exported
    instance runs the method of the class of that name. *)
Lemma call_method_after_import (op : Operation) (w : World Host) :
  module_default w = None ->
  let w1 := (import_WindowsService Host realm w).2 in
  (import_WindowsService Host realm w).1 = JObject (service_address realm (heap w))
  ∧ call_method Host realm primitive (service_address realm (heap w))
      (method_name op) (method_arguments op) w1
    = (Normal (perform Host realm primitive op w1).1, (perform Host realm primitive op w1).2).
Proof.
  intros Hmod. unfold import_WindowsService. rewrite Hmod, module_body_unfold. cbn.
  split; [done|]. unfold call_method. cbn [heap set_module set_heap].
  destruct (get_method (module_evaluated realm (heap w)) (service_address realm (heap w))
              _ (class_prototype (heap w)) (method_name op) (method_body op)
              (module_evaluated_service (heap w)) eq_refl eq_refl
              (module_evaluated_has_method (heap w) op) (method_name_not_proto op))
    as (f & fo & -> & -> & Hclass).
  destruct fo as [cls proto ext props]. cbn in Hclass. subst cls.
  apply apply_code_perform.
Qed.

End Dispatch.

(** ** The export stays frozen *)

Section Invariant.

Variable Host : Type.
Variable realm : Realm.
Variable primitive :
  string -> option JsValue -> gmap loc JsObject -> Host ->
  JsValue * gmap loc JsObject * Host.

Local Ltac only_target Hne :=
  repeat match goal with
    | |- context [if ?b then _ else _] => destruct b; cbn; try done
    | |- context [match ?x with Some _ => _ | None => _ end] => destruct x; cbn; try done
    | |- context [let '(_, _) := ?x in _] => destruct x; cbn; try done
    end;
  try (rewrite lookup_insert_ne by (intros Heq; by apply Hne)); try done.

Lemma ordinary_set_other (h : gmap loc JsObject) (target l : loc) (key : string)
    (v : JsValue) :
  l ≠ target -> (ordinary_set h target key v).2 !! l = h !! l.
Proof. intros Hne. unfold ordinary_set. only_target Hne. Qed.

Lemma ordinary_delete_other (h : gmap loc JsObject) (target l : loc) (key : string) :
  l ≠ target -> (ordinary_delete h target key).2 !! l = h !! l.
Proof. intros Hne. unfold ordinary_delete. only_target Hne. Qed.

Lemma ordinary_define_own_property_other (h : gmap loc JsObject) (target l : loc)
    (key : string) (d : Descriptor) :
  l ≠ target -> (ordinary_define_own_property h target key d).2 !! l = h !! l.
Proof. intros Hne. unfold ordinary_define_own_property. only_target Hne. Qed.

Lemma ordinary_set_prototype_of_other (h : gmap loc JsObject) (target l : loc)
    (proto : option loc) :
  l ≠ target -> (ordinary_set_prototype_of h target proto).2 !! l = h !! l.
Proof. intros Hne. unfold ordinary_set_prototype_of. only_target Hne. Qed.

Lemma set_prototype_of_other (h : gmap loc JsObject) (target l : loc)
    (proto : option loc) :
  l ≠ target -> (set_prototype_of h target proto).2 !! l = h !! l.
Proof.
  intros Hne. unfold set_prototype_of.
  destruct (h !! target) as [[[] current ext props]|] eqn:Htarget; try done.
  all: by apply ordinary_set_prototype_of_other.
Qed.

Lemma proto_setter_other (h : gmap loc JsObject) (target l : loc) (v : JsValue) :
  l ≠ target -> (proto_setter h target v).2 !! l = h !! l.
Proof.
  intros Hne. unfold proto_setter. destruct (proto_of_value v) as [p|]; [|done].
  pose proof (set_prototype_of_other h target l p Hne) as Hsame.
  by destruct (set_prototype_of h target p) as [ok h'].
Qed.

Lemma delete_property_other (h : gmap loc JsObject) (target l : loc) (key : string) :
  l ≠ target -> (delete_property h target key).2 !! l = h !! l.
Proof.
  intros Hne. unfold delete_property.
  destruct (h !! target) as [o|] eqn:Htarget; [|done].
  destruct (own_proto_accessor o key) as [[e c]|].
  - destruct c; cbn; [|done]. by rewrite lookup_insert_ne by (intros Heq; by apply Hne).
  - by apply ordinary_delete_other.
Qed.

Lemma define_own_property_other (h : gmap loc JsObject) (target l : loc)
    (key : string) (d : Descriptor) :
  l ≠ target -> (define_own_property h target key d).2 !! l = h !! l.
Proof.
  intros Hne. unfold define_own_property.
  destruct (h !! target) as [o|] eqn:Htarget; [|done].
  destruct (own_proto_accessor o key) as [[e c]|].
  - destruct c, (is_generic d); cbn; try done.
    all: by rewrite lookup_insert_ne by (intros Heq; by apply Hne).
  - by apply ordinary_define_own_property_other.
Qed.

Lemma array_define_own_property_other (h : gmap loc JsObject) (target l : loc)
    (key : string) (d : Descriptor) :
  l ≠ target -> (array_define_own_property h target key d).2 !! l = h !! l.
Proof.
  intros Hne. unfold array_define_own_property.
  destruct (h !! target) as [o|] eqn:Htarget; [|done].
  destruct (array_define o key d) as [answer o']. cbn.
  by rewrite lookup_insert_ne by (intros Heq; by apply Hne).
Qed.

Lemma array_set_other (h : gmap loc JsObject) (target l : loc) (key : string)
    (v : JsValue) :
  l ≠ target -> (array_set h target key v).2 !! l = h !! l.
Proof.
  intros Hne. unfold array_set.
  destruct (h !! target) as [o|] eqn:Htarget; [|done].
  destruct (negb _); [done|].
  destruct (own_property key (obj_props o)) as [q|].
  - destruct (prop_writable q); [|done]. by apply array_define_own_property_other.
  - by apply array_define_own_property_other.
Qed.

(** An attempt on one object leaves every other object as it was. *)
Lemma attempt_other (m : Modification) (target l : loc) (w : World Host) :
  l ≠ target -> heap (attempt Host m target w).2 !! l = heap w !! l.
Proof.
  intros Hne. destruct m as [strict key v|strict key|key d|proto]; unfold attempt.
  - destruct (String.eqb key "__proto__" && finds_proto_accessor _ _ _).
    + pose proof (proto_setter_other (heap w) target l v Hne) as Hsame.
      by destruct (proto_setter (heap w) target v) as [outcome h'].
    + pose proof (ordinary_set_other (heap w) target l key v Hne) as Hsame.
      pose proof (array_set_other (heap w) target l key v Hne) as Harray.
      destruct (ordinary_set (heap w) target key v) as [ok h'].
      destruct (array_set (heap w) target key v) as [answer h''].
      by destruct (is_array (heap w) target).
  - pose proof (delete_property_other (heap w) target l key Hne) as Hsame.
    by destruct (delete_property (heap w) target key) as [ok h'].
  - pose proof (define_own_property_other (heap w) target l key d Hne) as Hsame.
    pose proof (array_define_own_property_other (heap w) target l key d Hne) as Harray.
    destruct (define_own_property (heap w) target key d) as [ok h'].
    destruct (array_define_own_property (heap w) target key d) as [answer h''].
    by destruct (is_array (heap w) target).
  - pose proof (set_prototype_of_other (heap w) target l proto Hne) as Hsame.
    by destruct (set_prototype_of (heap w) target proto) as [ok h'].
Qed.

Lemma attempt_module (m : Modification) (target : loc) (w : World Host) :
  module_default (attempt Host m target w).2 = module_default w.
Proof.
  destruct m; unfold attempt;
    repeat match goal with
      | |- context [if ?b && ?c then _ else _] => destruct (b && c)
      | |- context [if is_array ?h ?l then _ else _] => destruct (is_array h l)
      | |- context [let '(_, _) := ?run in _] => by destruct run
      end.
Qed.

(** No attempt, on whatever object, ends the readiness of the service. *)
Lemma attempt_ready (m : Modification) (target : loc) (w : World Host) :
  service_ready w -> service_ready (attempt Host m target w).2.
Proof.
  intros Hready v. rewrite attempt_module. intros (l & o & -> & Hl & Hfrozen)%Hready.
  destruct (decide (l = target)) as [->|Hne].
  - rewrite (attempt_frozen Host m target o w Hl Hfrozen). by exists target, o.
  - exists l, o. by rewrite attempt_other.
Qed.

(** Nor does an operation of the service, when the primitive leaves live
    objects alone. *)
Lemma perform_ready (op : Operation) (w : World Host) :
  (∀ cmd args h s l o, h !! l = Some o -> (primitive cmd args h s).1.2 !! l = Some o) ->
  service_ready w -> service_ready (perform Host realm primitive op w).2.
Proof.
  intros Hframe Hready v.
  destruct (perform_call Host realm primitive op w)
    as (call & _ & _ & _ & Hheap & _ & _ & Hprim & ->).
  intros (l & o & -> & Hl & Hfrozen)%Hready. exists l, o. split; [done|]. split; [|done].
  specialize (Hframe (call_cmd call) (call_args call) (call_heap call) (host w) l o).
  rewrite Hprim in Hframe. apply Hframe. rewrite Hheap. by apply expected_heap_frame.
Qed.

Lemma import_ready (w : World Host) :
  service_ready w -> service_ready (import_WindowsService Host realm w).2.
Proof.
  intros Hready v Hv.
  destruct (import_WindowsService_ready Host realm w Hready) as [Hmod Hfrozen].
  cbv zeta in Hmod, Hfrozen. congruence.
Qed.

End Invariant.

(** * The theorems on the sample host *)

Lemma open_window_one_call_witness :
  ∃ call : RemoteCall,
    log (open_window nat sample_realm null_primitive configured.1 configured.2).2
      = log configured.2 ++ [call]
    ∧ call_cmd call = "plugin:windows|open_window"
    ∧ call_record call = Some [("configuration", JObject 6)].
Proof.
  destruct (open_window_one_call nat sample_realm null_primitive configured.1 configured.2)
    as (call & Hlog & Hcmd & Hrec & _).
  exists call. split; [exact Hlog|]. split; [exact Hcmd|exact Hrec].
Defined.

Lemma rejection_passes_through_witness :
  let run := perform nat sample_realm rejecting_primitive (OpenWindow configured.1) configured.2 in
  ∃ call : RemoteCall,
    last (log run.2) = Some call
    ∧ promise_state (heap run.2) (call_promise call) = Some (Rejected host_unreachable)
    ∧ promise_state (heap run.2) run.1 = Some (Rejected host_unreachable).
Proof.
  cbv zeta.
  destruct (perform_call nat sample_realm rejecting_primitive (OpenWindow configured.1) configured.2)
    as (call & Hlog & _ & _ & _ & _ & Hres & _ & _).
  exists call.
  assert (last (log (perform nat sample_realm rejecting_primitive
                       (OpenWindow configured.1) configured.2).2) = Some call) as Hlast
    by (rewrite Hlog; apply last_snoc).
  assert (promise_state
            (heap (perform nat sample_realm rejecting_primitive
                     (OpenWindow configured.1) configured.2).2)
            (call_promise call) = Some (Rejected host_unreachable)) as Hrejected
    by (rewrite <- Hres; vm_compute; reflexivity).
  split; [exact Hlast|]. split; [exact Hrejected|].
  exact (proj1 (rejection_passes_through nat sample_realm rejecting_primitive
                  (OpenWindow configured.1) configured.2 call _ host_unreachable
                  Hlast Hrejected)).
Defined.

Lemma open_empty_window_two_arguments_witness :
  ∃ call : RemoteCall,
    log (open_empty_window nat sample_realm null_primitive
           configured.1 configured_with_options.1 configured_with_options.2).2
      = log configured_with_options.2 ++ [call]
    ∧ call_record call = Some [("configuration", JObject 6); ("options", JObject 12)]
    ∧ "configuration" ≠ "options".
Proof.
  destruct (open_empty_window_two_arguments nat sample_realm null_primitive
              configured.1 configured_with_options.1 configured_with_options.2)
    as (call & Hlog & _ & Hrec & Hne).
  exists call. split; [exact Hlog|]. split; [exact Hrec|exact Hne].
Defined.

Lemma open_existing_window_key_witness :
  ∃ (call : RemoteCall) (record : list (string * JsValue)),
    call_record call = Some record
    ∧ "windowToUse" ∈ record.*1
    ∧ "windowToUse" ≠ "configuration"
    ∧ record = [("configuration", JObject 6); ("windowToUse", JString "main")].
Proof.
  destruct (open_existing_window_key nat sample_realm null_primitive
              configured.1 (JString "main") configured.2)
    as (call & record & _ & _ & Hrec & Hrecord & _ & Hkeys).
  exists call, record.
  assert ("windowToUse" ∈ record.*1) as Hin
    by (rewrite Hrecord; cbn; apply elem_of_cons; right; apply elem_of_cons; by left).
  assert ("windowToUse" ≠ "configuration") as Hne by discriminate.
  pose proof (Hkeys "windowToUse" Hin Hne) as _.
  split; [exact Hrec|]. split; [exact Hin|]. split; [exact Hne|exact Hrecord].
Defined.

Lemma send_forwards_payload_witness :
  ∃ call : RemoteCall,
    heap configured.2 !! 5%positive = Some (array_object sample_realm [JObject 4])
    ∧ call_record call = Some [("channel", JString "opened"); ("payload", JObject 5)]
    ∧ call_heap call !! 5%positive = Some (array_object sample_realm [JObject 4]).
Proof.
  destruct (send_forwards_payload nat sample_realm null_primitive
              "opened" (JObject 5) configured.2)
    as [(call & _ & _ & Hrec & Hframe) _].
  exists call.
  assert (heap configured.2 !! 5%positive = Some (array_object sample_realm [JObject 4]))
    as Hlive by (vm_compute; reflexivity).
  split; [exact Hlive|]. split; [exact Hrec|]. exact (Hframe _ _ Hlive).
Defined.

Lemma get_window_no_arguments_witness :
  ∃ call : RemoteCall,
    call_args call = None
    ∧ promise_state (heap focused_window_null.2) (call_promise call) = Some (Fulfilled JNull)
    ∧ promise_state (heap focused_window_null.2) focused_window_null.1 = Some (Fulfilled JNull).
Proof.
  destruct (get_window_no_arguments nat sample_realm null_primitive sample_world)
    as [(call & Hlog & _ & Hargs & Hsame) _].
  exists call. split; [exact Hargs|].
  assert (call_promise call = focused_window_null.1) as Hpromise.
  { assert (last (log focused_window_null.2) = Some call) as Hlast
      by (unfold focused_window_null; rewrite Hlog; apply last_snoc).
    vm_compute in Hlast. injection Hlast as <-. reflexivity. }
  assert (promise_state (heap focused_window_null.2) (call_promise call)
          = Some (Fulfilled JNull)) as Hfulfilled
    by (rewrite Hpromise; vm_compute; reflexivity).
  split; [exact Hfulfilled|]. exact (proj1 (Hsame _ _ Hfulfilled)).
Defined.

(** The claim C6 as stated fails on this host: the call succeeds, and the
    promise [get_focused_window] returned is fulfilled with [null], which is
    not a string. *)
Lemma get_focused_window_null_reply :
  promise_state (heap focused_window_null.2) focused_window_null.1 = Some (Fulfilled JNull)
  ∧ is_string JNull = false
  ∧ ¬ (∀ value,
         promise_state (heap focused_window_null.2) focused_window_null.1
           = Some (Fulfilled value) ->
         is_string value = true).
Proof.
  split; [vm_compute; reflexivity|]. split; [reflexivity|].
  intros Hclaim. specialize (Hclaim JNull). discriminate Hclaim. vm_compute; reflexivity.
Qed.

Lemma sample_world_ready : service_ready configured.2.
Proof. intros v Hmod. vm_compute in Hmod. discriminate Hmod. Defined.




Lemma settling_primitive_frame (answer : PromiseState) (cmd : string)
    (args : option JsValue) (h : gmap loc JsObject) (s : nat) (l : loc) (o : JsObject) :
  h !! l = Some o -> (settling_primitive answer cmd args h s).1.2 !! l = Some o.
Proof.
  intros Hl. cbn. rewrite lookup_insert_ne; [done|].
  intros <-. by rewrite (not_elem_of_dom_1 h (fresh (dom h)) (is_fresh _)) in Hl.
Qed.

Lemma one_remote_call_per_operation_witness :
  let run := perform nat sample_realm rejecting_primitive
               (SendToAll (JString "opened") configured.1) configured.2 in
  promise_state (heap run.2) run.1 = Some (Rejected host_unreachable)
  ∧ length (log run.2) = S (length (log configured.2)).
Proof.
  cbv zeta.
  destruct (one_remote_call_per_operation nat sample_realm rejecting_primitive
              (SendToAll (JString "opened") configured.1) configured.2)
    as (call & _ & _ & _ & Hres & _ & Hrejected).
  assert (promise_state
            (heap (perform nat sample_realm rejecting_primitive
                     (SendToAll (JString "opened") configured.1) configured.2).2)
            (call_promise call) = Some (Rejected host_unreachable)) as Hstate
    by (rewrite <- Hres; vm_compute; reflexivity).
  destruct (Hrejected host_unreachable Hstate) as [Hlength Hresult].
  split; [exact Hresult|exact Hlength].
Defined.

Lemma arguments_left_alone_witness :
  let run := perform nat sample_realm null_primitive (OpenWindow configured.1) configured.2 in
  configured.1 = JObject 6
  ∧ is_Some (heap configured.2 !! 6%positive)
  ∧ heap run.2 !! 6%positive = heap configured.2 !! 6%positive.
Proof.
  cbv zeta.
  destruct (arguments_left_alone nat sample_realm null_primitive
              (OpenWindow configured.1) configured.2)
    as (call & _ & _ & _ & _ & _ & Hframe).
  specialize (Hframe (settling_primitive_frame (Fulfilled JNull)) 6%positive).
  split; [vm_compute; reflexivity|].
  destruct (heap configured.2 !! 6%positive) as [o|] eqn:Hlive.
  - split; [by exists o|]. exact (Hframe o eq_refl).
  - vm_compute in Hlive. discriminate Hlive.
Defined.

Lemma request_determined_by_arguments_witness :
  ∃ call1 call2 : RemoteCall,
    log (perform nat sample_realm null_primitive (OpenWindow JNull) sample_world).2
      = log sample_world ++ [call1]
    ∧ log (perform nat sample_realm rejecting_primitive (OpenWindow JNull) configured.2).2
      = log configured.2 ++ [call2]
    ∧ call_cmd call1 = call_cmd call2
    ∧ call_record call1 = call_record call2.
Proof.
  destruct (request_determined_by_arguments nat nat sample_realm sample_realm
              null_primitive rejecting_primitive (OpenWindow JNull)
              sample_world configured.2 JUndefined)
    as [(call1 & call2 & Hlog1 & Hlog2 & Hcmd & Hrec & _) _].
  exists call1, call2. split; [exact Hlog1|]. split; [exact Hlog2|].
  split; [exact Hcmd|exact Hrec].
Defined.

(** On the sample host the instance is the object at address 16 and the
    prototype of the class the object at address 7. *)
Example imported_service : imported.1 = JObject 16.
Proof. vm_compute. reflexivity. Qed.

Example imported_call :
  (call_method nat sample_realm null_primitive 16 "get_focused_window" [] imported.2).1
  = Normal (JObject 17)
  ∧ call_cmd <$> log (call_method nat sample_realm null_primitive 16
                        "get_focused_window" [] imported.2).2
    = ["plugin:windows|get_focused_window"].
Proof. split; vm_compute; reflexivity. Qed.

(** Freezing reaches the instance, not the prototype it inherits its
    methods from: an assignment to a property of the prototype succeeds, and
    later calls see it. *)
Example prototype_is_not_frozen :
  (attempt nat (Assign true "get_focused_window" JNull) 7 imported.2).1 = Normal JNull
  ∧ (call_method nat sample_realm null_primitive 16 "get_focused_window" []
       (attempt nat (Assign true "get_focused_window" JNull) 7 imported.2).2).1
    = ThrowTypeError.
Proof. split; vm_compute; reflexivity. Qed.

(** The array of the sample configuration, at address 5, holds one
    element.  An assignment past its end moves its length; one to its
    length, here of a string that reads as zero, empties it; and a length
    that is none throws in sloppy code too. *)
Example array_keeps_its_length :
  get (heap configured.2) 5 "length" = number_of_N 1
  ∧ get (heap (attempt nat (Assign true "3" JNull) 5 configured.2).2) 5 "length"
    = number_of_N 4
  ∧ (let emptied := attempt nat (Assign true "length" (JString "0")) 5 configured.2 in
     emptied.1 = Normal (JString "0")
     ∧ get (heap emptied.2) 5 "length" = number_of_N 0
     ∧ get (heap emptied.2) 5 "0" = JUndefined)
  ∧ (attempt nat (Assign false "length" (JNumber (number_of_Z (-1)))) 5 configured.2).1
    = ThrowRangeError.
Proof. repeat split; vm_compute; reflexivity. Qed.

(** * Callers: sequences of operations and of steps *)

Section Sequences.

Variable Host : Type.
Variable realm : Realm.
Variable primitive :
  string -> option JsValue -> gmap loc JsObject -> Host ->
  JsValue * gmap loc JsObject * Host.

Lemma perform_all_cons (op : Operation) (rest : list Operation) (w : World Host) :
  perform_all Host realm primitive (op :: rest) w
  = ((perform Host realm primitive op w).1
       :: (perform_all Host realm primitive rest (perform Host realm primitive op w).2).1,
     (perform_all Host realm primitive rest (perform Host realm primitive op w).2).2).
Proof.
  cbn [perform_all]. unfold mbind, M_bind, mret, M_ret.
  destruct (perform Host realm primitive op w) as [r w1]. cbn.
  by destruct (perform_all Host realm primitive rest w1) as [rs w2].
Qed.

(** X1. Operations called one after the other issue one remote call
    each, in the order of the calls: the log grows by as many entries as
    there are operations, the entries carry the commands and the argument
    records of the operations in that order, and the results are the
    promises of these calls in that order.  Nothing is merged, dropped,
    reordered or answered from an earlier call, also when the same
    operation is called again with the same arguments. *)
Theorem perform_all_requests (ops : list Operation) (w : World Host) :
  ∃ calls : list RemoteCall,
    log (perform_all Host realm primitive ops w).2 = log w ++ calls
    ∧ call_cmd <$> calls = command_of <$> ops
    ∧ call_record <$> calls = arguments_of <$> ops
    ∧ (perform_all Host realm primitive ops w).1 = call_promise <$> calls.
Proof.
  revert w. induction ops as [|op rest IH]; intros w.
  - exists []. cbn. by rewrite app_nil_r.
  - rewrite perform_all_cons. cbn [fst snd].
    destruct (perform_call Host realm primitive op w)
      as (call & Hlog & Hcmd & _ & _ & Hrec & Hres & _ & _).
    destruct (IH (perform Host realm primitive op w).2)
      as (calls & Hlogs & Hcmds & Hrecs & Hress).
    exists (call :: calls). cbn [fmap list_fmap].
    rewrite Hlogs, Hlog, <- app_assoc. cbn.
    repeat split; [by rewrite Hcmd, <- Hcmds|by rewrite Hrec, <- Hrecs|].
    by rewrite Hres, Hress.
Qed.

Lemma step_module (s : Step) (w : World Host) (v : JsValue) :
  module_default w = Some v ->
  module_default (step Host realm primitive s w).2 = Some v.
Proof.
  intros Hmod. destruct s as [|op|m target]; cbn; unfold mbind, M_bind, mret, M_ret.
  - by rewrite (import_WindowsService_again Host realm w v Hmod).
  - destruct (perform_call Host realm primitive op w) as (call & _ & _ & _ & _ & _ & _ & _ & Hsame).
    destruct (perform Host realm primitive op w) as [r w1]. cbn in *. congruence.
  - pose proof (attempt_module Host m target w) as Hsame.
    destruct (attempt Host m target w) as [r w1]. cbn in *. congruence.
Qed.

Lemma step_ready (s : Step) (w : World Host) :
  (∀ cmd args h s l o, h !! l = Some o -> (primitive cmd args h s).1.2 !! l = Some o) ->
  service_ready w -> service_ready (step Host realm primitive s w).2.
Proof.
  intros Hframe Hready. destruct s as [|op|m target]; cbn; unfold mbind, M_bind, mret, M_ret.
  - pose proof (import_ready Host realm w Hready) as Hnext.
    by destruct (import_WindowsService Host realm w) as [r w1].
  - pose proof (perform_ready Host realm primitive op w Hframe Hready) as Hnext.
    by destruct (perform Host realm primitive op w) as [r w1].
  - pose proof (attempt_ready Host m target w Hready) as Hnext.
    by destruct (attempt Host m target w) as [r w1].
Qed.

Lemma run_steps_cons (s : Step) (rest : list Step) (w : World Host) :
  (run_steps Host realm primitive (s :: rest) w).2
  = (run_steps Host realm primitive rest (step Host realm primitive s w).2).2.
Proof.
  cbn [run_steps]. unfold mbind, M_bind.
  by destruct (step Host realm primitive s w) as [r w1].
Qed.

(** X2. Whatever a caller does with the module, in whatever order
    (imports, operations of the service, attempts to modify any object,
    the instance or another), the export stays what it is: once the module
    has a binding it keeps that binding, and the object bound stays frozen.
    The primitive is taken to leave live objects alone. *)
Theorem export_kept (steps : list Step) (w : World Host) :
  (∀ cmd args h s l o, h !! l = Some o -> (primitive cmd args h s).1.2 !! l = Some o) ->
  service_ready w ->
  service_ready (run_steps Host realm primitive steps w).2
  ∧ ∀ v, module_default w = Some v ->
         module_default (run_steps Host realm primitive steps w).2 = Some v.
Proof.
  intros Hframe. revert w. induction steps as [|s rest IH]; intros w Hready.
  - done.
  - rewrite run_steps_cons.
    destruct (IH _ (step_ready s w Hframe Hready)) as [Hnext Hkeep].
    split; [done|]. intros v Hmod. apply Hkeep. by apply step_module.
Qed.

End Sequences.

(** * The module, evaluated *)

Section ModuleEvaluation.

Variable Host : Type.
Variable realm : Realm.
Variable primitive :
  string -> option JsValue -> gmap loc JsObject -> Host ->
  JsValue * gmap loc JsObject * Host.

Implicit Types (h : gmap loc JsObject) (P F l : loc) (name key : string).

Local Ltac not_in_keys :=
  let Hin := fresh "Hin" in
  intros Hin;
  repeat (apply elem_of_cons in Hin as [Hin|Hin]; [done|]);
  by apply elem_of_nil in Hin.

Lemma own_property_absent key (ps : list (string * Property)) :
  key ∉ ps.*1 -> own_property key ps = None.
Proof.
  induction ps as [|[k p] ps IH]; cbn; [done|].
  intros Hnotin. apply not_elem_of_cons in Hnotin as [Hne Hrest].
  destruct (String.eqb_spec k key) as [->|_]; [done|]. by apply IH.
Qed.

Lemma put_property_keys_new key (p : Property) (ps : list (string * Property)) :
  key ∉ ps.*1 -> (put_property key p ps).*1 = ps.*1 ++ [key].
Proof.
  induction ps as [|[k q] ps IH]; cbn; [done|].
  intros Hnotin. apply not_elem_of_cons in Hnotin as [Hne Hrest].
  destruct (String.eqb_spec k key) as [->|_]; [done|]. cbn. by rewrite IH.
Qed.

Lemma method_defined_keys h P name arity body (ks : list string) :
  keys_at h P = Some ks -> name ∉ ks ->
  keys_at (method_defined realm P name arity body h) P = Some (ks ++ [name]).
Proof.
  unfold keys_at, method_defined. intros Hks Hnotin.
  destruct (h !! P) as [oP|] eqn:HP; [|done]. injection Hks as <-.
  rewrite lookup_alter_eq, lookup_insert_ne, HP by (apply fresh_not_live_ne; by eexists).
  cbn. by rewrite put_property_keys_new.
Qed.

Lemma method_defined_own h P name arity body key (q : Property) :
  key ≠ name -> has_own h P key q ->
  has_own (method_defined realm P name arity body h) P key q.
Proof.
  intros Hne (oP & HP & Hown). unfold method_defined, has_own.
  eexists. split.
  - rewrite lookup_alter_eq, lookup_insert_ne, HP by (apply fresh_not_live_ne; by eexists).
    reflexivity.
  - cbn. by rewrite own_property_put_ne.
Qed.

(** The heap once the class has its prototype object and its constructor,
    before the methods are defined. *)
Lemma class_evaluated_frame h l :
  is_Some (h !! l) -> class_evaluated realm h !! l = h !! l.
Proof.
  intros Hl.
  assert (l ≠ class_prototype h) as HneP by by apply live_not_fresh.
  assert (class_declared realm h !! l = h !! l) as Hdeclared
    by (unfold class_declared; by rewrite lookup_insert_ne).
  assert (l ≠ class_constructor realm h) as HneF
    by (apply live_not_fresh; by rewrite Hdeclared).
  unfold class_evaluated. cbv zeta.
  match goal with
  | |- context [alter ?f ?P ?h0] =>
      assert (alter f P h0 !! l = h !! l) as Hbase
        by (by rewrite lookup_alter_ne, lookup_insert_ne);
      assert (is_Some (alter f P h0 !! l)) as Hlive by (by rewrite Hbase)
  end.
  repeat (rewrite method_defined_other;
          [|repeat apply method_defined_live; exact Hlive|exact HneP]).
  exact Hbase.
Qed.

Lemma module_evaluated_frame h l :
  is_Some (h !! l) -> module_evaluated realm h !! l = h !! l.
Proof.
  intros Hl. unfold module_evaluated.
  assert (is_Some (class_evaluated realm h !! l)) as Hlive
    by (by rewrite class_evaluated_frame).
  rewrite lookup_alter_ne, lookup_insert_ne by (by apply fresh_not_live_ne).
  by apply class_evaluated_frame.
Qed.

Lemma service_address_new h : h !! service_address realm h = None.
Proof.
  destruct (h !! service_address realm h) as [o|] eqn:Hl; [|done].
  assert (is_Some (class_evaluated realm h !! service_address realm h)) as Hlive
    by (rewrite class_evaluated_frame; by eexists).
  by apply fresh_not_live_ne in Hlive.
Qed.

Lemma class_evaluated_keys h :
  keys_at (class_evaluated realm h) (class_prototype h) = Some Windows_prototype_keys.
Proof.
  unfold class_evaluated. cbv zeta.
  match goal with
  | |- context [alter ?f ?P ?h0] =>
      assert (keys_at (alter f P h0) (class_prototype h) = Some ["constructor"]) as Hbase
  end.
  { unfold keys_at.
    rewrite lookup_alter_eq, lookup_insert_ne by apply class_constructor_not_prototype.
    unfold class_declared. by rewrite lookup_insert_eq. }
  pose proof (method_defined_keys _ _ "open_window" 1 Windows_open_window _
                Hbase ltac:(not_in_keys)) as H1.
  pose proof (method_defined_keys _ _ "open_empty_window" 2 Windows_open_empty_window _
                H1 ltac:(not_in_keys)) as H2.
  pose proof (method_defined_keys _ _ "open_existing_window" 2 Windows_open_existing_window _
                H2 ltac:(not_in_keys)) as H3.
  pose proof (method_defined_keys _ _ "send_to_focused" 2 Windows_send_to_focused _
                H3 ltac:(not_in_keys)) as H4.
  pose proof (method_defined_keys _ _ "send_to_all" 2 Windows_send_to_all _
                H4 ltac:(not_in_keys)) as H5.
  pose proof (method_defined_keys _ _ "get_focused_window" 0 Windows_get_focused_window _
                H5 ltac:(not_in_keys)) as H6.
  pose proof (method_defined_keys _ _ "get_last_active_window" 0
                Windows_get_last_active_window _ H6 ltac:(not_in_keys)) as H7.
  exact H7.
Qed.

Lemma class_evaluated_constructor h :
  has_own (class_evaluated realm h) (class_prototype h) "constructor"
    (hidden_property (JObject (class_constructor realm h))).
Proof.
  unfold class_evaluated. cbv zeta.
  repeat (apply method_defined_own; [discriminate|]).
  eexists. split.
  - rewrite lookup_alter_eq, lookup_insert_ne by apply class_constructor_not_prototype.
    unfold class_declared. rewrite lookup_insert_eq. reflexivity.
  - reflexivity.
Qed.

Lemma class_evaluated_constructor_object h :
  ∃ oF, class_evaluated realm h !! class_constructor realm h = Some oF
        ∧ obj_class oF = FunctionObject Windows_constructor.
Proof.
  unfold class_evaluated. cbv zeta.
  match goal with
  | |- context [alter ?f ?P ?h0] =>
      assert (∃ oF, alter f P h0 !! class_constructor realm h = Some oF
                    ∧ obj_class oF = FunctionObject Windows_constructor) as (oF & HF & Hclass)
  end.
  { eexists. split.
    - rewrite lookup_alter_ne
        by (intros Heq; by apply (class_constructor_not_prototype realm h)).
      apply lookup_insert_eq.
    - reflexivity. }
  exists oF. split; [|done].
  repeat (rewrite method_defined_other;
          [|repeat apply method_defined_live; by eexists
           |apply class_constructor_not_prototype]).
  exact HF.
Qed.

Lemma method_defined_at h P (oP : JsObject) name arity body :
  h !! P = Some oP ->
  method_defined realm P name arity body h !! P
  = Some (add_property name (hidden_property (JObject (fresh (dom h)))) oP).
Proof.
  intros HP. unfold method_defined.
  by rewrite lookup_alter_eq, lookup_insert_ne, HP by (apply fresh_not_live_ne; by eexists).
Qed.

Lemma class_evaluated_prototype_object h :
  ∃ oP, class_evaluated realm h !! class_prototype h = Some oP
        ∧ obj_proto oP = Some (Object_prototype realm).
Proof.
  unfold class_evaluated. cbv zeta.
  match goal with
  | |- context [alter ?f ?P ?h0] =>
      assert (∃ oP, alter f P h0 !! class_prototype h = Some oP
                    ∧ obj_proto oP = Some (Object_prototype realm)) as (o0 & H0 & Hproto)
  end.
  { eexists. split.
    - rewrite lookup_alter_eq, lookup_insert_ne by apply class_constructor_not_prototype.
      unfold class_declared. rewrite lookup_insert_eq. reflexivity.
    - reflexivity. }
  pose proof (method_defined_at _ _ _ "open_window" 1 Windows_open_window H0) as H1.
  pose proof (method_defined_at _ _ _ "open_empty_window" 2 Windows_open_empty_window H1)
    as H2.
  pose proof (method_defined_at _ _ _ "open_existing_window" 2
                Windows_open_existing_window H2) as H3.
  pose proof (method_defined_at _ _ _ "send_to_focused" 2 Windows_send_to_focused H3) as H4.
  pose proof (method_defined_at _ _ _ "send_to_all" 2 Windows_send_to_all H4) as H5.
  pose proof (method_defined_at _ _ _ "get_focused_window" 0 Windows_get_focused_window H5)
    as H6.
  pose proof (method_defined_at _ _ _ "get_last_active_window" 0
                Windows_get_last_active_window H6) as H7.
  eexists. split; [exact H7|exact Hproto].
Qed.

Lemma find_property_end h l (o : JsObject) key (fuel : nat) :
  h !! l = Some o -> own_property key (obj_props o) = None -> obj_proto o = None ->
  find_property fuel h l key = None.
Proof. intros Hl Hown Hend. destruct fuel; cbn; [done|]. by rewrite Hl, Hown, Hend. Qed.

Lemma find_property_up h l (o : JsObject) P key (fuel : nat) :
  h !! l = Some o -> own_property key (obj_props o) = None -> obj_proto o = Some P ->
  find_property (S fuel) h l key = find_property fuel h P key.
Proof. intros Hl Hown Hproto. cbn. by rewrite Hl, Hown, Hproto. Qed.

Lemma import_fresh_unfold (w : World Host) :
  module_default w = None ->
  import_WindowsService Host realm w
  = (JObject (service_address realm (heap w)),
     set_module (Some (JObject (service_address realm (heap w))))
       (set_heap (module_evaluated realm (heap w)) w)).
Proof.
  intros Hmod. unfold import_WindowsService. by rewrite Hmod, module_body_unfold.
Qed.

(** What [get] finds on an object without own property of that name
    whose prototype has one. *)
Lemma get_inherited h l (o oP : JsObject) P key (q : Property) :
  h !! l = Some o -> own_property key (obj_props o) = None -> obj_proto o = Some P ->
  h !! P = Some oP -> own_property key (obj_props oP) = Some q ->
  String.eqb key "__proto__" = false ->
  get h l key = prop_value q.
Proof.
  intros Hl Hown Hproto HP HownP Hkey. rewrite (get_data _ _ _ Hkey).
  destruct (nonempty_size h l) as [n ->]; [by eexists|].
  cbn. rewrite Hl, Hown, Hproto. cbn. by rewrite HP, HownP.
Qed.

Lemma module_evaluated_prototype h :
  module_evaluated realm h !! class_prototype h
  = class_evaluated realm h !! class_prototype h.
Proof.
  unfold module_evaluated.
  rewrite lookup_alter_ne, lookup_insert_ne
    by (apply fresh_not_live_ne, class_evaluated_prototype_live).
  done.
Qed.

Lemma operation_of_call_method name (args : list JsValue) (op : Operation) :
  operation_of_call name args = Some op ->
  name = method_name op
  ∧ ∀ (this : JsValue) (w : World Host),
      apply_code Host realm primitive (method_body op) this args w
      = (Normal (perform Host realm primitive op w).1,
         (perform Host realm primitive op w).2).
Proof.
  unfold operation_of_call. cbv zeta.
  repeat match goal with
    | |- context [String.eqb name ?s] =>
        destruct (String.eqb_spec name s) as [->|?];
        [intros [= <-]; split; [reflexivity|];
         intros this w; cbn; unfold mbind, M_bind, mret, M_ret;
         match goal with |- context [let '(_, _) := ?run in _] => by destruct run end|]
    end.
  discriminate.
Qed.

Lemma operation_of_call_none name (args : list JsValue) :
  operation_of_call name args = None -> name ≠ "constructor" ->
  name ∉ Windows_prototype_keys.
Proof.
  unfold operation_of_call, Windows_prototype_keys. intros Hcall Hne Hin.
  cbv zeta in Hcall.
  repeat match type of Hcall with
    | context [String.eqb name ?s] =>
        destruct (String.eqb_spec name s) as [->|?]; [discriminate Hcall|]
    end.
  repeat (apply elem_of_cons in Hin as [Hin|Hin]; [done|]).
  by apply elem_of_nil in Hin.
Qed.

(** X3. Evaluating the module calls nothing and touches nothing: the log
    of remote calls, the host and the module binding are as before, and
    every object that was live is unchanged.  All it does is allocate. *)
Theorem module_body_only_allocates (w : World Host) :
  log (module_body Host realm w).2 = log w
  ∧ host (module_body Host realm w).2 = host w
  ∧ module_default (module_body Host realm w).2 = module_default w
  ∧ ∀ l o, heap w !! l = Some o -> heap (module_body Host realm w).2 !! l = Some o.
Proof.
  rewrite module_body_unfold. cbn. repeat split.
  intros l o Hl. rewrite module_evaluated_frame; [done|by eexists].
Qed.

(** X4. The value the module exports is a reference to a new object that
    has no own property and is not extensible, hence frozen; its prototype
    is an object whose own properties are, in this order, [constructor] and
    the seven methods, each method name bound to a function with the body
    of that method. *)
Theorem module_body_exports (w : World Host) :
  ∃ service P : loc,
    (module_body Host realm w).1 = JObject service
    ∧ heap w !! service = None
    ∧ heap (module_body Host realm w).2 !! service
      = Some {| obj_class := OrdinaryObject; obj_proto := Some P;
                obj_extensible := false; obj_props := [] |}
    ∧ keys_at (heap (module_body Host realm w).2) P = Some Windows_prototype_keys
    ∧ ∀ op, has_method (heap (module_body Host realm w).2) P
              (method_name op) (method_body op).
Proof.
  rewrite module_body_unfold. cbn.
  exists (service_address realm (heap w)), (class_prototype (heap w)).
  split; [done|]. split; [apply service_address_new|].
  split; [apply module_evaluated_service|]. split.
  - unfold keys_at. rewrite module_evaluated_prototype. apply class_evaluated_keys.
  - apply module_evaluated_has_method.
Qed.

(** X5. Right after the module is evaluated, a call of one of the seven
    methods on the export, with any list of arguments, is the operation of
    that name with its parameters bound by position: a parameter without
    argument is [undefined], arguments beyond the parameters are dropped.
    The call is issued all the same; no arity or type is checked. *)
Theorem method_call_binds_by_position (name : string) (args : list JsValue)
    (op : Operation) (w : World Host) :
  module_default w = None ->
  operation_of_call name args = Some op ->
  let w1 := (import_WindowsService Host realm w).2 in
  call_method Host realm primitive (service_address realm (heap w)) name args w1
  = (Normal (perform Host realm primitive op w1).1, (perform Host realm primitive op w1).2).
Proof.
  intros Hmod [-> Hcode]%operation_of_call_method.
  rewrite (import_fresh_unfold w Hmod). cbn [snd]. unfold call_method.
  cbn [heap set_module set_heap].
  destruct (get_method (module_evaluated realm (heap w)) (service_address realm (heap w))
              _ (class_prototype (heap w)) (method_name op) (method_body op)
              (module_evaluated_service realm (heap w)) eq_refl eq_refl
              (module_evaluated_has_method realm (heap w) op) (method_name_not_proto op))
    as (f & fo & -> & -> & Hclass).
  destruct fo as [cls proto ext props]. cbn in Hclass. subst cls.
  apply Hcode.
Qed.

Lemma constructor_call_throws (args : list JsValue) (w : World Host) :
  module_default w = None ->
  call_method Host realm primitive (service_address realm (heap w)) "constructor" args
    (import_WindowsService Host realm w).2
  = (ThrowTypeError, (import_WindowsService Host realm w).2).
Proof.
  intros Hmod. rewrite (import_fresh_unfold w Hmod). cbn [snd]. unfold call_method.
  cbn [heap set_module set_heap].
  destruct (class_evaluated_constructor (heap w)) as (oP & HP & Hctor).
  rewrite <- module_evaluated_prototype in HP.
  rewrite (get_inherited _ _ _ _ _ _ _ (module_evaluated_service realm (heap w))
             eq_refl eq_refl HP Hctor eq_refl). cbn.
  destruct (class_evaluated_constructor_object (heap w)) as (oF & HF & Hclass).
  assert (module_evaluated realm (heap w) !! class_constructor realm (heap w) = Some oF)
    as ->.
  { unfold module_evaluated.
    rewrite lookup_alter_ne, lookup_insert_ne by (apply fresh_not_live_ne; by eexists).
    exact HF. }
  destruct oF as [cls proto ext props]. cbn in Hclass. subst cls. reflexivity.
Qed.

Lemma class_evaluated_prototype_class h :
  ∃ oP, class_evaluated realm h !! class_prototype h = Some oP
        ∧ obj_class oP = OrdinaryObject.
Proof.
  unfold class_evaluated. cbv zeta.
  match goal with
  | |- context [alter ?f ?P ?h0] =>
      assert (∃ oP, alter f P h0 !! class_prototype h = Some oP
                    ∧ obj_class oP = OrdinaryObject) as (o0 & H0 & Hclass)
  end.
  { eexists. split.
    - rewrite lookup_alter_eq, lookup_insert_ne by apply class_constructor_not_prototype.
      unfold class_declared. rewrite lookup_insert_eq. reflexivity.
    - reflexivity. }
  pose proof (method_defined_at _ _ _ "open_window" 1 Windows_open_window H0) as H1.
  pose proof (method_defined_at _ _ _ "open_empty_window" 2 Windows_open_empty_window H1)
    as H2.
  pose proof (method_defined_at _ _ _ "open_existing_window" 2
                Windows_open_existing_window H2) as H3.
  pose proof (method_defined_at _ _ _ "send_to_focused" 2 Windows_send_to_focused H3) as H4.
  pose proof (method_defined_at _ _ _ "send_to_all" 2 Windows_send_to_all H4) as H5.
  pose proof (method_defined_at _ _ _ "get_focused_window" 0 Windows_get_focused_window H5)
    as H6.
  pose proof (method_defined_at _ _ _ "get_last_active_window" 0
                Windows_get_last_active_window H6) as H7.
  eexists. split; [exact H7|exact Hclass].
Qed.

(** X6. Right after the module is evaluated, a call on the export under
    any other name throws a [TypeError] and leaves the world as it is, the
    log of remote calls included.  [constructor] is found, on the prototype
    of the class, but is a class constructor: that call throws in every
    realm.  Any other name is found nowhere, given that the realm's object
    prototype ends the prototype chain and has no data property of that
    name; [__proto__], where the accessor is inherited, reads as the
    prototype of the class, which is no function. *)
Theorem other_calls_throw (args : list JsValue) (w : World Host) :
  module_default w = None ->
  let w1 := (import_WindowsService Host realm w).2 in
  call_method Host realm primitive (service_address realm (heap w)) "constructor" args w1
  = (ThrowTypeError, w1)
  ∧ ∀ (name : string) (o : JsObject),
      operation_of_call name args = None ->
      heap w !! Object_prototype realm = Some o ->
      obj_proto o = None ->
      own_property name (obj_props o) = None ->
      call_method Host realm primitive (service_address realm (heap w)) name args w1
      = (ThrowTypeError, w1).
Proof.
  intros Hmod. cbv zeta. split; [by apply constructor_call_throws|].
  intros name o Hcall Hobject Hend Hnone.
  destruct (String.eqb_spec name "constructor") as [->|Hne];
    [by apply constructor_call_throws|].
  rewrite (import_fresh_unfold w Hmod). cbn [snd]. unfold call_method.
  cbn [heap set_module set_heap].
  destruct (class_evaluated_constructor (heap w)) as (oP & HP & _).
  rewrite <- module_evaluated_prototype in HP.
  assert (own_property name (obj_props oP) = None) as HownP.
  { apply own_property_absent.
    pose proof (class_evaluated_keys (heap w)) as Hkeys. unfold keys_at in Hkeys.
    rewrite <- module_evaluated_prototype, HP in Hkeys. injection Hkeys as ->.
    by apply (operation_of_call_none name args). }
  assert (obj_proto oP = Some (Object_prototype realm)) as HprotoP.
  { destruct (class_evaluated_prototype_object (heap w)) as (oP' & HP' & Hproto).
    rewrite <- module_evaluated_prototype, HP in HP'. by injection HP' as <-. }
  assert (module_evaluated realm (heap w) !! Object_prototype realm = Some o) as Hobject'
    by (rewrite module_evaluated_frame; [done|by eexists]).
  unfold get.
  destruct (String.eqb name "__proto__" && finds_proto_accessor _ _ _) eqn:Haccessor.
  - rewrite module_evaluated_service. cbn. rewrite HP.
    destruct (class_evaluated_prototype_class (heap w)) as (oP' & HP' & Hclass).
    rewrite <- module_evaluated_prototype, HP in HP'. injection HP' as <-.
    destruct oP as [cls proto ext props]. cbn in Hclass. by subst cls.
  - rewrite (find_property_up _ _ _ _ _ _ (module_evaluated_service realm (heap w))
               eq_refl eq_refl).
    destruct (size (module_evaluated realm (heap w))) as [|n]; [done|].
    rewrite (find_property_up _ _ _ _ _ _ HP HownP HprotoP).
    by rewrite (find_property_end _ _ _ _ _ Hobject' Hnone Hend).
Qed.

Lemma find_property_inherited h l (o oP : JsObject) P key (q : Property) :
  h !! l = Some o -> own_property key (obj_props o) = None -> obj_proto o = Some P ->
  h !! P = Some oP -> own_property key (obj_props oP) = Some q ->
  find_property (S (size h)) h l key = Some q.
Proof.
  intros Hl Hown Hproto HP HownP.
  destruct (nonempty_size h l) as [n ->]; [by eexists|].
  cbn. rewrite Hl, Hown, Hproto. cbn. by rewrite HP, HownP.
Qed.

Lemma ordinary_set_writable h l (o : JsObject) key (q : Property) (v : JsValue) :
  h !! l = Some o -> own_property key (obj_props o) = Some q -> prop_writable q = true ->
  ordinary_set h l key v
  = (true, <[l := set_props (put_property key (set_value v q) (obj_props o)) o]> h).
Proof.
  intros Hl Hown Hwritable. unfold ordinary_set.
  rewrite Hl, (find_property_own _ _ _ _ _ _ Hl Hown), Hown. cbn. by rewrite Hwritable.
Qed.

Lemma has_method_insert_new h P l (o : JsObject) name body :
  h !! l = None -> has_method h P name body -> has_method (<[l := o]> h) P name body.
Proof.
  intros Hnew (oP & f & fo & HP & Hown & Hf & Hclass). exists oP, f, fo.
  rewrite !lookup_insert_ne by (intros <-; congruence). done.
Qed.

Lemma module_evaluated_has_prototype h :
  has_prototype (module_evaluated realm h) (class_constructor realm h) (class_prototype h).
Proof.
  destruct (class_evaluated_has_prototype realm h) as (oF & HF & Hown).
  exists oF. split; [|done]. unfold module_evaluated.
  rewrite lookup_alter_ne, lookup_insert_ne by (apply fresh_not_live_ne; by eexists).
  done.
Qed.

Lemma service_not_prototype h : service_address realm h ≠ class_prototype h.
Proof. apply fresh_not_live_ne, class_evaluated_prototype_live. Qed.

(** X7. [Object.freeze] reaches the instance only.  Right after the
    module is evaluated, an assignment to a method name on the prototype of
    the class is accepted, in strict and in sloppy code, and the export
    then finds the assigned value under that name; when the value is not an
    object, calling that method on the export throws a [TypeError] and
    issues no remote call. *)
Theorem prototype_assignment_reaches_export (op : Operation) (strict : bool)
    (v : JsValue) (args : list JsValue) (w : World Host) :
  module_default w = None ->
  let w1 := (import_WindowsService Host realm w).2 in
  let assigned := attempt Host (Assign strict (method_name op) v) (class_prototype (heap w)) w1 in
  assigned.1 = Normal v
  ∧ get (heap assigned.2) (service_address realm (heap w)) (method_name op) = v
  ∧ ((∀ l, v ≠ JObject l) ->
     call_method Host realm primitive (service_address realm (heap w))
       (method_name op) args assigned.2
     = (ThrowTypeError, assigned.2)).
Proof.
  intros Hmod. rewrite (import_fresh_unfold w Hmod). cbn [snd]. cbv zeta.
  destruct (module_evaluated_has_method realm (heap w) op)
    as (oP & f & fo & HP & Hown & _ & _).
  assert (is_array (module_evaluated realm (heap w)) (class_prototype (heap w)) = false)
    as Hordinary.
  { destruct (class_evaluated_prototype_class (heap w)) as (oP' & HP' & Hclass).
    rewrite <- module_evaluated_prototype in HP'. unfold is_array. rewrite HP'.
    destruct oP' as [cls proto ext props]. cbn in Hclass. by subst cls. }
  unfold attempt. rewrite method_name_not_proto. cbn [heap set_module set_heap andb].
  rewrite Hordinary.
  rewrite (ordinary_set_writable _ _ _ _ _ v HP Hown eq_refl). cbn [fst snd negb andb].
  split; [done|].
  match goal with
  | |- context [heap (set_heap ?h2 _)] =>
      assert (get h2 (service_address realm (heap w)) (method_name op) = v) as Hget
  end.
  { eapply (get_inherited _ _ _ _ (class_prototype (heap w)) _ (set_value v _)).
    - rewrite lookup_insert_ne by (intros Heq; by apply (service_not_prototype (heap w))).
      apply module_evaluated_service.
    - reflexivity.
    - reflexivity.
    - apply lookup_insert_eq.
    - cbn. apply own_property_put_eq.
    - apply method_name_not_proto. }
  cbn [heap set_heap]. split; [exact Hget|].
  intros Hvalue. unfold call_method. cbn [heap set_heap]. rewrite Hget.
  destruct v; try done. by destruct (Hvalue l).
Qed.

Lemma new_Windows_unfold (F P : loc) (w : World Host) :
  has_prototype (heap w) F P ->
  new_Windows Host realm F w
  = (JObject (fresh (dom (heap w))),
     set_heap (<[fresh (dom (heap w)) :=
                   {| obj_class := OrdinaryObject; obj_proto := Some P;
                      obj_extensible := true; obj_props := [] |}]> (heap w)) w).
Proof.
  intros (oF & HF & Hown). unfold new_Windows.
  by rewrite (get_own _ _ _ _ _ HF Hown).
Qed.

(** X8. The class stays within reach of the callers: right after the
    module is evaluated, the [constructor] the export inherits is the
    class, and [new] on it makes another instance.  That instance is a new
    object, different from the export, with no own property and the same
    prototype; it is extensible, so not frozen; every object that was live
    is unchanged; and a method call on it is the same operation as on the
    export. *)
Theorem constructor_makes_another_instance (name : string) (args : list JsValue)
    (op : Operation) (w : World Host) :
  module_default w = None ->
  operation_of_call name args = Some op ->
  let w1 := (import_WindowsService Host realm w).2 in
  let F := class_constructor realm (heap w) in
  get (heap w1) (service_address realm (heap w)) "constructor" = JObject F
  ∧ ∃ other : loc,
      (new_Windows Host realm F w1).1 = JObject other
      ∧ other ≠ service_address realm (heap w)
      ∧ heap w1 !! other = None
      ∧ heap (new_Windows Host realm F w1).2 !! other
        = Some {| obj_class := OrdinaryObject;
                  obj_proto := Some (class_prototype (heap w));
                  obj_extensible := true; obj_props := [] |}
      ∧ ¬ frozen_in (heap (new_Windows Host realm F w1).2) (JObject other)
      ∧ (∀ l o, heap w1 !! l = Some o ->
                heap (new_Windows Host realm F w1).2 !! l = Some o)
      ∧ call_method Host realm primitive other name args (new_Windows Host realm F w1).2
        = (Normal (perform Host realm primitive op (new_Windows Host realm F w1).2).1,
           (perform Host realm primitive op (new_Windows Host realm F w1).2).2).
Proof.
  intros Hmod [-> Hcode]%operation_of_call_method.
  rewrite (import_fresh_unfold w Hmod). cbn [snd]. cbv zeta. cbn [heap set_module set_heap].
  split.
  { destruct (class_evaluated_constructor (heap w)) as (oP & HP & Hctor).
    rewrite <- module_evaluated_prototype in HP.
    by rewrite (get_inherited _ _ _ _ _ _ _ (module_evaluated_service realm (heap w))
                  eq_refl eq_refl HP Hctor eq_refl). }
  rewrite (new_Windows_unfold _ (class_prototype (heap w)))
    by apply module_evaluated_has_prototype.
  cbn [fst snd heap set_module set_heap].
  set (h1 := module_evaluated realm (heap w)).
  assert (h1 !! fresh (dom h1) = None) as Hnew by apply fresh_not_live.
  exists (fresh (dom h1)). split; [done|].
  split; [apply fresh_not_live_ne; eexists; apply (module_evaluated_service realm (heap w))|].
  split; [done|]. split; [apply lookup_insert_eq|]. split.
  { intros (l & o & [= <-] & Hl & Hfrozen). rewrite lookup_insert_eq in Hl.
    injection Hl as <-. discriminate Hfrozen. }
  split.
  { intros l o Hl. rewrite lookup_insert_ne; [done|]. intros <-. congruence. }
  unfold call_method. cbn [heap set_heap].
  destruct (get_method (<[fresh (dom h1) :=
                            {| obj_class := OrdinaryObject;
                               obj_proto := Some (class_prototype (heap w));
                               obj_extensible := true; obj_props := [] |}]> h1)
              (fresh (dom h1)) _ (class_prototype (heap w)) (method_name op) (method_body op)
              (lookup_insert_eq _ _ _) eq_refl eq_refl
              (has_method_insert_new _ _ _ _ _ _ Hnew
                 (module_evaluated_has_method realm (heap w) op))
              (method_name_not_proto op))
    as (f & fo & -> & -> & Hclass).
  destruct fo as [cls proto ext props]. cbn in Hclass. subst cls.
  apply Hcode.
Qed.

Lemma ordinary_set_new h l (o : JsObject) key (q : Property) (v : JsValue) :
  h !! l = Some o -> own_property key (obj_props o) = None -> obj_extensible o = true ->
  find_property (S (size h)) h l key = Some q -> prop_writable q = true ->
  ordinary_set h l key v
  = (true, <[l := set_props (put_property key (data_property v) (obj_props o)) o]> h).
Proof.
  intros Hl Hown Hextensible Hfound Hwritable. unfold ordinary_set.
  rewrite Hl, Hfound, Hown, Hextensible. cbn. by rewrite Hwritable.
Qed.

(** X9. What [Object.freeze] changes.  An instance that [new] made and
    nothing froze accepts an assignment to a method name, in strict and in
    sloppy code: from then on it finds the assigned value under that name,
    while the export, frozen, still finds the method of the class. *)
Theorem unfrozen_instance_accepts_assignment (op : Operation) (strict : bool)
    (v : JsValue) (w : World Host) :
  module_default w = None ->
  let w1 := (import_WindowsService Host realm w).2 in
  let made := new_Windows Host realm (class_constructor realm (heap w)) w1 in
  ∃ other : loc,
    made.1 = JObject other
    ∧ let assigned := attempt Host (Assign strict (method_name op) v) other made.2 in
      assigned.1 = Normal v
      ∧ get (heap assigned.2) other (method_name op) = v
      ∧ ∃ f fo,
          get (heap assigned.2) (service_address realm (heap w)) (method_name op) = JObject f
          ∧ heap assigned.2 !! f = Some fo
          ∧ obj_class fo = FunctionObject (method_body op).
Proof.
  intros Hmod. rewrite (import_fresh_unfold w Hmod). cbn [snd]. cbv zeta.
  rewrite (new_Windows_unfold _ (class_prototype (heap w)))
    by apply module_evaluated_has_prototype.
  cbn [fst snd heap set_module set_heap].
  set (h1 := module_evaluated realm (heap w)).
  set (other := fresh (dom h1)).
  set (made := {| obj_class := OrdinaryObject; obj_proto := Some (class_prototype (heap w));
                  obj_extensible := true; obj_props := [] |}).
  assert (h1 !! other = None) as Hnew by apply fresh_not_live.
  assert (other ≠ service_address realm (heap w)) as Hother
    by (apply fresh_not_live_ne; eexists; apply (module_evaluated_service realm (heap w))).
  pose proof (module_evaluated_has_method realm (heap w) op) as Hmethod.
  destruct (has_method_insert_new h1 _ other made _ _ Hnew Hmethod)
    as (oP & f & fo & HP & Hown & _ & _).
  exists other. split; [done|]. unfold attempt. rewrite method_name_not_proto.
  cbn [heap set_heap andb].
  assert (is_array (<[other := made]> h1) other = false) as ->
    by (unfold is_array; by rewrite lookup_insert_eq).
  rewrite (ordinary_set_new _ other made (method_name op) _ v (lookup_insert_eq _ _ _)
             eq_refl eq_refl
             (find_property_inherited (<[other := made]> h1) other made oP
                (class_prototype (heap w)) (method_name op) _ (lookup_insert_eq _ _ _)
                eq_refl eq_refl HP Hown) eq_refl).
  cbn [fst snd negb andb heap set_heap]. split; [done|].
  rewrite insert_insert_eq. split.
  - rewrite get_data by apply method_name_not_proto.
    cbn [find_property]. rewrite lookup_insert_eq. cbn.
    by rewrite String.eqb_refl.
  - eapply (get_method _ (service_address realm (heap w)) _ (class_prototype (heap w))).
    + rewrite lookup_insert_ne by done. apply (module_evaluated_service realm (heap w)).
    + reflexivity.
    + reflexivity.
    + by apply has_method_insert_new.
    + apply method_name_not_proto.
Qed.

Lemma size_two h (a b : loc) :
  is_Some (h !! a) -> is_Some (h !! b) -> a ≠ b -> ∃ m, size h = S (S m).
Proof.
  intros Ha Hb Hne. pose proof (map_size_delete_Some a h Ha) as Hsize.
  destruct (size h) as [|[|m]] eqn:Hh; [| |by eexists].
  - apply map_size_empty_iff in Hh. subst h. destruct Ha as [o Ha].
    by rewrite lookup_empty in Ha.
  - cbn in Hsize. apply map_size_empty_iff in Hsize.
    destruct Hb as [o Hb]. rewrite <- (lookup_delete_ne h a b) in Hb by done.
    by rewrite Hsize, lookup_empty in Hb.
Qed.

(** In a realm whose object prototype still has the accessor [__proto__],
    the export inherits it right after the module is evaluated: neither the
    instance nor the prototype of the class has a property of that name. *)
Lemma export_inherits_accessor (w : World Host) (o : JsObject) (e c : bool) :
  module_default w = None ->
  heap w !! Object_prototype realm = Some o ->
  own_proto_accessor o "__proto__" = Some (e, c) ->
  let w1 := (import_WindowsService Host realm w).2 in
  finds_proto_accessor (S (size (heap w1))) (heap w1) (service_address realm (heap w))
  = true.
Proof.
  intros Hmod Hobject Haccessor.
  rewrite (import_fresh_unfold w Hmod). cbn [snd]. cbv zeta. cbn [heap set_module set_heap].
  destruct (class_evaluated_constructor (heap w)) as (oP & HP & _).
  rewrite <- module_evaluated_prototype in HP.
  assert (own_property "__proto__" (obj_props oP) = None) as HownP.
  { apply own_property_absent.
    pose proof (class_evaluated_keys (heap w)) as Hkeys. unfold keys_at in Hkeys.
    rewrite <- module_evaluated_prototype, HP in Hkeys. injection Hkeys as ->.
    unfold Windows_prototype_keys. intros Hin.
    repeat (apply elem_of_cons in Hin as [Hin|Hin]; [done|]).
    by apply elem_of_nil in Hin. }
  assert (obj_proto oP = Some (Object_prototype realm)) as HprotoP.
  { destruct (class_evaluated_prototype_object (heap w)) as (oP' & HP' & Hproto).
    rewrite <- module_evaluated_prototype, HP in HP'. by injection HP' as <-. }
  assert (obj_class oP = OrdinaryObject) as HclassP.
  { destruct (class_evaluated_prototype_class (heap w)) as (oP' & HP' & Hclass).
    rewrite <- module_evaluated_prototype, HP in HP'. by injection HP' as <-. }
  assert (module_evaluated realm (heap w) !! Object_prototype realm = Some o) as Hobject'
    by (rewrite module_evaluated_frame; [done|by eexists]).
  destruct (size_two (module_evaluated realm (heap w)) (service_address realm (heap w))
              (class_prototype (heap w))) as [m ->];
    [rewrite module_evaluated_service; by eexists|by eexists|apply service_not_prototype|].
  cbn [finds_proto_accessor]. rewrite module_evaluated_service. cbn.
  rewrite HP, HownP, HclassP, HprotoP, Hobject'.
  unfold own_proto_accessor in Haccessor. cbn in Haccessor.
  destruct (own_property "__proto__" (obj_props o)); [done|].
  by destruct (obj_class o) as [| | | |[|e' c']].
Qed.

(** So there an assignment to [__proto__] on the export is decided by the
    value and not by the mode: it throws when the value is an object or
    [null], the prototype of the class excepted, and is ignored
    otherwise. *)
Lemma export_proto_assignment (strict : bool) (value : JsValue)
    (w : World Host) (o : JsObject) (e c : bool) :
  module_default w = None ->
  heap w !! Object_prototype realm = Some o ->
  own_proto_accessor o "__proto__" = Some (e, c) ->
  (attempt Host (Assign strict "__proto__" value) (service_address realm (heap w))
     (import_WindowsService Host realm w).2).1
  = match proto_of_value value with
    | Some p =>
        if bool_decide (p = Some (class_prototype (heap w)))
        then Normal value else ThrowTypeError
    | None => Normal value
    end.
Proof.
  intros Hmod Hobject Haccessor.
  pose proof (export_inherits_accessor w o e c Hmod Hobject Haccessor) as Hfinds.
  cbv zeta in Hfinds.
  assert (heap (import_WindowsService Host realm w).2 !! service_address realm (heap w)
          = Some {| obj_class := OrdinaryObject;
                    obj_proto := Some (class_prototype (heap w));
                    obj_extensible := false; obj_props := [] |}) as Hlive
    by (rewrite (import_fresh_unfold w Hmod); apply module_evaluated_service).
  rewrite (assign_frozen_outcome Host strict "__proto__" value _ _ _ Hlive eq_refl).
  by rewrite Hfinds.
Qed.

End ModuleEvaluation.

(** * The further theorems on the sample host *)

Lemma configured_not_imported : module_default configured.2 = None.
Proof. vm_compute. reflexivity. Defined.

Lemma perform_all_requests_witness :
  ∃ calls : list RemoteCall,
    log (perform_all nat sample_realm null_primitive
           [GetFocusedWindow; OpenWindow configured.1; GetFocusedWindow] configured.2).2
      = log configured.2 ++ calls
    ∧ call_cmd <$> calls
      = ["plugin:windows|get_focused_window"; "plugin:windows|open_window";
         "plugin:windows|get_focused_window"].
Proof.
  destruct (perform_all_requests nat sample_realm null_primitive
              [GetFocusedWindow; OpenWindow configured.1; GetFocusedWindow] configured.2)
    as (calls & Hlog & Hcmds & _).
  exists calls. split; [exact Hlog|exact Hcmds].
Defined.

Lemma export_kept_witness :
  service_ready imported.2
  ∧ module_default imported.2 = Some (JObject 16)
  ∧ service_ready
      (run_steps nat sample_realm null_primitive
         [StepPerform (OpenWindow configured.1);
          StepAttempt (Assign true "open_window" JNull) 16;
          StepAttempt (Delete false "open_window") 7;
          StepImport] imported.2).2
  ∧ module_default
      (run_steps nat sample_realm null_primitive
         [StepPerform (OpenWindow configured.1);
          StepAttempt (Assign true "open_window" JNull) 16;
          StepAttempt (Delete false "open_window") 7;
          StepImport] imported.2).2
    = Some (JObject 16).
Proof.
  pose proof (import_ready nat sample_realm configured.2 sample_world_ready) as Hready.
  assert (module_default imported.2 = Some (JObject 16)) as Hmod
    by (vm_compute; reflexivity).
  destruct (export_kept nat sample_realm null_primitive
              [StepPerform (OpenWindow configured.1);
               StepAttempt (Assign true "open_window" JNull) 16;
               StepAttempt (Delete false "open_window") 7;
               StepImport] imported.2
              (settling_primitive_frame (Fulfilled JNull)) Hready) as [Hkept Hbinding].
  split; [exact Hready|]. split; [exact Hmod|]. split; [exact Hkept|].
  exact (Hbinding (JObject 16) Hmod).
Defined.

Lemma module_body_only_allocates_witness :
  log (module_body nat sample_realm configured.2).2 = log configured.2
  ∧ is_Some (heap configured.2 !! 6%positive)
  ∧ heap (module_body nat sample_realm configured.2).2 !! 6%positive
    = heap configured.2 !! 6%positive.
Proof.
  destruct (module_body_only_allocates nat sample_realm configured.2)
    as (Hlog & _ & _ & Hframe).
  split; [exact Hlog|].
  destruct (heap configured.2 !! 6%positive) as [o|] eqn:Hlive.
  - split; [by exists o|]. exact (Hframe 6%positive o Hlive).
  - vm_compute in Hlive. discriminate Hlive.
Defined.

Lemma module_body_exports_witness :
  ∃ service P : loc,
    (module_body nat sample_realm configured.2).1 = JObject service
    ∧ keys_at (heap (module_body nat sample_realm configured.2).2) P
      = Some Windows_prototype_keys.
Proof.
  destruct (module_body_exports nat sample_realm configured.2)
    as (service & P & Hexport & _ & _ & Hkeys & _).
  exists service, P. split; [exact Hexport|exact Hkeys].
Defined.

Lemma method_call_binds_by_position_witness :
  module_default configured.2 = None
  ∧ operation_of_call "open_window" [] = Some (OpenWindow JUndefined)
  ∧ call_method nat sample_realm null_primitive
      (service_address sample_realm (heap configured.2)) "open_window" []
      (import_WindowsService nat sample_realm configured.2).2
    = (Normal (perform nat sample_realm null_primitive (OpenWindow JUndefined)
                 (import_WindowsService nat sample_realm configured.2).2).1,
       (perform nat sample_realm null_primitive (OpenWindow JUndefined)
          (import_WindowsService nat sample_realm configured.2).2).2).
Proof.
  split; [exact configured_not_imported|]. split; [reflexivity|].
  exact (method_call_binds_by_position nat sample_realm null_primitive
           "open_window" [] (OpenWindow JUndefined) configured.2
           configured_not_imported eq_refl).
Defined.

Lemma standard_not_imported : module_default standard_world = None.
Proof. reflexivity. Defined.

Lemma other_calls_throw_witness :
  module_default standard_world = None
  ∧ heap standard_world !! 1%positive
    = Some {| obj_class := ObjectPrototypeObject (Accessor false true);
              obj_proto := None; obj_extensible := true;
              obj_props := [("constructor", hidden_property (JObject 4))] |}
  ∧ call_method nat sample_realm null_primitive
      (service_address sample_realm (heap standard_world)) "constructor" []
      (import_WindowsService nat sample_realm standard_world).2
    = (ThrowTypeError, (import_WindowsService nat sample_realm standard_world).2)
  ∧ operation_of_call "close_window" [JNull] = None
  ∧ call_method nat sample_realm null_primitive
      (service_address sample_realm (heap standard_world)) "close_window" [JNull]
      (import_WindowsService nat sample_realm standard_world).2
    = (ThrowTypeError, (import_WindowsService nat sample_realm standard_world).2).
Proof.
  assert (heap standard_world !! Object_prototype sample_realm
          = Some {| obj_class := ObjectPrototypeObject (Accessor false true);
                    obj_proto := None; obj_extensible := true;
                    obj_props := [("constructor", hidden_property (JObject 4))] |})
    as Hobject by (vm_compute; reflexivity).
  split; [exact standard_not_imported|]. split; [exact Hobject|].
  split; [exact (proj1 (other_calls_throw nat sample_realm null_primitive []
                          standard_world standard_not_imported))|].
  split; [reflexivity|].
  exact (proj2 (other_calls_throw nat sample_realm null_primitive [JNull]
                  standard_world standard_not_imported)
           "close_window" _ eq_refl Hobject eq_refl eq_refl).
Defined.

Lemma JNull_not_object (l : loc) : JNull ≠ JObject l.
Proof. discriminate. Defined.

Lemma prototype_assignment_reaches_export_witness :
  module_default configured.2 = None
  ∧ (attempt nat (Assign true "get_focused_window" JNull)
       (class_prototype (heap configured.2))
       (import_WindowsService nat sample_realm configured.2).2).1 = Normal JNull
  ∧ call_method nat sample_realm null_primitive
      (service_address sample_realm (heap configured.2)) "get_focused_window" []
      (attempt nat (Assign true "get_focused_window" JNull)
         (class_prototype (heap configured.2))
         (import_WindowsService nat sample_realm configured.2).2).2
    = (ThrowTypeError,
       (attempt nat (Assign true "get_focused_window" JNull)
          (class_prototype (heap configured.2))
          (import_WindowsService nat sample_realm configured.2).2).2).
Proof.
  destruct (prototype_assignment_reaches_export nat sample_realm null_primitive
              GetFocusedWindow true JNull [] configured.2 configured_not_imported)
    as (Haccepted & _ & Hthrows).
  split; [exact configured_not_imported|]. split; [exact Haccepted|].
  exact (Hthrows JNull_not_object).
Defined.

Lemma constructor_makes_another_instance_witness :
  module_default configured.2 = None
  ∧ operation_of_call "send_to_all" [JString "opened"; JNull; JNull]
    = Some (SendToAll (JString "opened") JNull)
  ∧ get (heap (import_WindowsService nat sample_realm configured.2).2)
      (service_address sample_realm (heap configured.2)) "constructor"
    = JObject (class_constructor sample_realm (heap configured.2))
  ∧ ∃ other : loc,
      (new_Windows nat sample_realm (class_constructor sample_realm (heap configured.2))
         (import_WindowsService nat sample_realm configured.2).2).1 = JObject other
      ∧ other ≠ service_address sample_realm (heap configured.2).
Proof.
  destruct (constructor_makes_another_instance nat sample_realm null_primitive
              "send_to_all" [JString "opened"; JNull; JNull]
              (SendToAll (JString "opened") JNull) configured.2
              configured_not_imported eq_refl)
    as (Hclass & other & Hmade & Hother & _).
  split; [exact configured_not_imported|]. split; [reflexivity|]. split; [exact Hclass|].
  exists other. split; [exact Hmade|exact Hother].
Defined.

Lemma unfrozen_instance_accepts_assignment_witness :
  module_default configured.2 = None
  ∧ ∃ other : loc,
      (new_Windows nat sample_realm (class_constructor sample_realm (heap configured.2))
         (import_WindowsService nat sample_realm configured.2).2).1 = JObject other
      ∧ (attempt nat (Assign true "open_window" JNull) other
           (new_Windows nat sample_realm (class_constructor sample_realm (heap configured.2))
              (import_WindowsService nat sample_realm configured.2).2).2).1 = Normal JNull.
Proof.
  destruct (unfrozen_instance_accepts_assignment nat sample_realm
              (OpenWindow JNull) true JNull configured.2 configured_not_imported)
    as (other & Hmade & Haccepted & _).
  split; [exact configured_not_imported|].
  exists other. split; [exact Hmade|exact Haccepted].
Defined.
